(** * BitField and PermissionsBitField: a shallow embedding

    The development follows the JavaScript source of the two classes
    [BitField] and [PermissionsBitField].  The first part models the
    fragment of JavaScript the classes rely on (numbers, bigints, the
    string coercions [Number], [BigInt] and [isNaN], the bitwise
    operators and strict equality); the second part embeds the classes
    method by method over an explicit object store; the last part states
    and proves the properties. *)

From Stdlib Require Import ZArith QArith String Ascii List Lia Bool.
From Stdlib Require Import DecimalString DecimalZ DecimalPos DecimalN.
From Stdlib Require DecimalFacts.
Import ListNotations.
Local Open Scope string_scope.
Local Open Scope Z_scope.

(** ** JavaScript numbers

    A Number is NaN, an infinity, or a finite binary64 value, carried
    here by its exact rational value (negative zero is identified with
    zero; no operation of the classes tells them apart). *)

Inductive number : Type :=
| NaN
| Infinity (negative : bool)
| Finite (q : Q).

Definition of_Z (z : Z) : number := Finite (inject_Z z).

(** [ToInt32]: truncate towards zero, then wrap into [-2^31, 2^31). *)
Definition wrap32 (z : Z) : Z := (z + 2 ^ 31) mod 2 ^ 32 - 2 ^ 31.

Definition ToInt32 (n : number) : Z :=
  match n with
  | NaN | Infinity _ => 0
  | Finite q => wrap32 (Z.quot (Qnum q) (Zpos (Qden q)))
  end.

(** [a >= b] on Numbers. *)
Definition number_ge (a b : number) : bool :=
  match a, b with
  | NaN, _ | _, NaN => false
  | Finite p, Finite q => Qle_bool q p
  | Infinity false, _ => true
  | _, Infinity true => true
  | _, _ => false
  end.

(** [a === b] on Numbers. *)
Definition number_eq (a b : number) : bool :=
  match a, b with
  | Finite p, Finite q => Qeq_bool p q
  | Infinity s, Infinity t => Bool.eqb s t
  | _, _ => false
  end.

(** Rounding of a positive rational [n / d] to the nearest binary64
    value, ties to even.  [e] is the exponent of the unit in the last
    place, at least -1074 (subnormals); the significand [m] has at most
    53 bits. *)
Definition scale (n d e : Z) : Z * Z :=
  if 0 <=? e then (n, d * 2 ^ e) else (n * 2 ^ (- e), d).

Definition round_pos (n d : Z) : number :=
  let e0 := Z.log2 n - Z.log2 d - 52 in
  let '(n0, d0) := scale n d e0 in
  let e1 := if n0 / d0 <? 2 ^ 52 then e0 - 1 else e0 in
  let e := Z.max e1 (-1074) in
  let '(n1, d1) := scale n d e in
  let q := n1 / d1 in
  let r := n1 mod d1 in
  let m := if (d1 <? 2 * r) || ((d1 =? 2 * r) && Z.odd q) then q + 1 else q in
  if 0 <=? e
  then if 2 ^ 1024 <=? m * 2 ^ e then Infinity false else of_Z (m * 2 ^ e)
  else Finite (Qred (m # Z.to_pos (2 ^ (- e)))).

Definition number_opp (n : number) : number :=
  match n with
  | NaN => NaN
  | Infinity s => Infinity (negb s)
  | Finite q => Finite (Qopp q)
  end.

(** The Number nearest to [n * 10 ^ k], for [0 <= n]. *)
Definition round_decimal (n k : Z) : number :=
  if n =? 0 then of_Z 0
  else if 0 <=? k then round_pos (n * 10 ^ k) 1
  else round_pos n (10 ^ (- k)).

Definition round_int (z : Z) : number :=
  if z <? 0 then number_opp (round_decimal (- z) 0) else round_decimal z 0.

(** ** Numeric strings

    A string stands for a JavaScript string through its UTF-8 bytes.
    White space is what [Number], [BigInt] and [isNaN] strip from both
    ends of a string: the white space and line terminator characters of
    the language, U+0009 to U+000D, U+0020, U+00A0, U+1680, U+2000 to
    U+200A, U+2028, U+2029, U+202F, U+205F, U+3000 and U+FEFF. *)

(** The white space characters of one byte. *)
Definition is_ws (c : ascii) : bool :=
  let n := nat_of_ascii c in
  (Nat.leb 9 n && Nat.leb n 13) || Nat.eqb n 32.

(** The third byte of a white space character that starts with E2 80:
    U+2000 to U+200A, U+2028, U+2029, U+202F. *)
Definition is_ws_e280 (c : ascii) : bool :=
  let n := nat_of_ascii c in
  (Nat.leb 128 n && Nat.leb n 138) || Nat.eqb n 168 || Nat.eqb n 169
  || Nat.eqb n 175.

Fixpoint trim_left (s : string) : string :=
  match s with
  | String c r =>
      if is_ws c then trim_left r
      else
        match c, r with
        | "194"%char, String "160"%char r1 => trim_left r1
        | "225"%char, String "154"%char (String "128"%char r2) => trim_left r2
        | "226"%char, String "128"%char (String x r2) =>
            if is_ws_e280 x then trim_left r2 else s
        | "226"%char, String "129"%char (String "159"%char r2) => trim_left r2
        | "227"%char, String "128"%char (String "128"%char r2) => trim_left r2
        | "239"%char, String "187"%char (String "191"%char r2) => trim_left r2
        | _, _ => s
        end
  | EmptyString => EmptyString
  end.

(** Cut the string where only white space follows.  (A byte in the
    middle of a character never starts a white space character.) *)
Fixpoint trim_right (s : string) : string :=
  match s with
  | String c r =>
      match trim_left s with
      | EmptyString => EmptyString
      | _ => String c (trim_right r)
      end
  | EmptyString => EmptyString
  end.

Definition trim (s : string) : string := trim_right (trim_left s).

Definition digit_of (c : ascii) : option (Decimal.uint -> Decimal.uint) :=
  match c with
  | "0"%char => Some Decimal.D0 | "1"%char => Some Decimal.D1
  | "2"%char => Some Decimal.D2 | "3"%char => Some Decimal.D3
  | "4"%char => Some Decimal.D4 | "5"%char => Some Decimal.D5
  | "6"%char => Some Decimal.D6 | "7"%char => Some Decimal.D7
  | "8"%char => Some Decimal.D8 | "9"%char => Some Decimal.D9
  | _ => None
  end.

(** The longest prefix of decimal digits, and what follows it. *)
Fixpoint read_uint (s : string) : Decimal.uint * string :=
  match s with
  | String c r =>
      match digit_of c with
      | Some D => let '(u, rest) := read_uint r in (D u, rest)
      | None => (Decimal.Nil, s)
      end
  | EmptyString => (Decimal.Nil, EmptyString)
  end.

Definition read_sign (s : string) : bool * string :=
  match s with
  | String "-"%char r => (true, r)
  | String "+"%char r => (false, r)
  | _ => (false, s)
  end.

Definition is_nil (u : Decimal.uint) : bool :=
  match u with Decimal.Nil => true | _ => false end.

Definition digit_value (c : ascii) : option Z :=
  let n := Z.of_nat (nat_of_ascii c) in
  if (48 <=? n) && (n <=? 57) then Some (n - 48)
  else if (97 <=? n) && (n <=? 102) then Some (n - 87)
  else if (65 <=? n) && (n <=? 70) then Some (n - 55)
  else None.

Fixpoint radix_digits (radix acc : Z) (s : string) : option Z :=
  match s with
  | String c r =>
      match digit_value c with
      | Some v => if v <? radix then radix_digits radix (acc * radix + v) r else None
      | None => None
      end
  | EmptyString => Some acc
  end.

(** [0x..], [0o..], [0b..] with at least one digit and no sign. *)
Definition NonDecimalIntegerLiteral (s : string) : option Z :=
  match s with
  | String "0"%char (String p (String c r)) =>
      let radix :=
        match p with
        | "x"%char | "X"%char => Some 16
        | "o"%char | "O"%char => Some 8
        | "b"%char | "B"%char => Some 2
        | _ => None
        end in
      match radix with
      | Some b => radix_digits b 0 (String c r)
      | None => None
      end
  | _ => None
  end.

(** The exponent part [e[+-]digits] at the end of a decimal literal;
    [Some 0] when there is none. *)
Definition ExponentPart (s : string) : option Z :=
  match s with
  | EmptyString => Some 0
  | String c r =>
      if Ascii.eqb c "e" || Ascii.eqb c "E" then
        let '(neg, r1) := read_sign r in
        match read_uint r1 with
        | (u, EmptyString) =>
            if is_nil u then None
            else Some (if neg then - Z.of_uint u else Z.of_uint u)
        | _ => None
        end
      else None
  end.

(** [StrUnsignedDecimalLiteral]: [Infinity], [digits.digits?exp?],
    [.digits exp?] or [digits exp?]. *)
Definition StrUnsignedDecimalLiteral (s : string) : option number :=
  if String.eqb s "Infinity" then Some (Infinity false)
  else
    let '(ip, r1) := read_uint s in
    let '(fp, r2) :=
      match r1 with
      | String "."%char r => read_uint r
      | _ => (Decimal.Nil, r1)
      end in
    let dotted := match r1 with String "."%char _ => true | _ => false end in
    if is_nil ip && (negb dotted || is_nil fp) then None
    else
      match ExponentPart r2 with
      | Some ex =>
          Some (round_decimal (Z.of_uint (Decimal.app ip fp))
                              (ex - Z.of_nat (Decimal.nb_digits fp)))
      | None => None
      end.

Definition StrDecimalLiteral (s : string) : option number :=
  let '(neg, r) := read_sign s in
  match StrUnsignedDecimalLiteral r with
  | Some v => Some (if neg then number_opp v else v)
  | None => None
  end.

(** [Number(s)] for a string [s]. *)
Definition StringToNumber (s : string) : number :=
  let t := trim s in
  match t with
  | EmptyString => of_Z 0
  | _ =>
      match NonDecimalIntegerLiteral t with
      | Some z => round_int z
      | None =>
          match StrDecimalLiteral t with
          | Some v => v
          | None => NaN
          end
      end
  end.

(** [isNaN(s)] for a string [s]: coerce with [Number], test for NaN. *)
Definition isNaN (s : string) : bool :=
  match StringToNumber s with NaN => true | _ => false end.

(** [BigInt(s)] for a string [s]; [None] is a SyntaxError. *)
Definition StringToBigInt (s : string) : option Z :=
  let t := trim s in
  match t with
  | EmptyString => Some 0
  | _ =>
      match NonDecimalIntegerLiteral t with
      | Some z => Some z
      | None =>
          let '(neg, r) := read_sign t in
          match read_uint r with
          | (u, EmptyString) =>
              if is_nil u then None
              else Some (if neg then - Z.of_uint u else Z.of_uint u)
          | _ => None
          end
      end
  end.

(** [z.toString()] for a bigint [z]. *)
Definition bigint_toString (z : Z) : string :=
  NilZero.string_of_int (Z.to_int z).

(** ** Values

    [prim] is what a bitfield holds and what [resolve] returns:
    [undefined], a Number, a BigInt, or what [Object.prototype] holds
    under one of its keys (a built-in function, or the prototype itself
    under [__proto__]), which a table read finds when the table has no
    entry of that name.  [value] is what a caller may pass where a
    [BitFieldResolvable] is expected. *)

Inductive prim : Type :=
| Undefined
| Num (n : number)
| Big (z : Z)
| Inherited (key : string).

Definition loc := nat.

#[local] Unset Elimination Schemes.
Inductive value : Type :=
| VUndefined
| VNumber (n : number)
| VBigInt (z : Z)
| VString (s : string)
| VBool (b : bool)
| VInstance (l : loc)
| VArray (elems : list value)
| VOther.
#[local] Set Elimination Schemes.

Definition inject (p : prim) : value :=
  match p with
  | Undefined => VUndefined
  | Num n => VNumber n
  | Big z => VBigInt z
  | Inherited _ => VOther
  end.

(** ** Completions: a JavaScript call returns or throws. *)

Inductive error : Type := TypeError | SyntaxError.

Inductive result (A : Type) : Type :=
| Ok (a : A)
| Throw (e : error).
Arguments Ok {A} a.
Arguments Throw {A} e.

Definition bind {A B : Type} (m : result A) (k : A -> result B) : result B :=
  match m with
  | Ok a => k a
  | Throw e => Throw e
  end.

Notation "x <- m ;; k" := (bind m (fun x => k))
  (at level 100, m at next level, right associativity).

Fixpoint sequence {A : Type} (ms : list (result A)) : result (list A) :=
  match ms with
  | [] => Ok []
  | m :: rest => a <- m ;; l <- sequence rest ;; Ok (a :: l)
  end.

(** ** Operators on bitfield values

    [|], [&] and [~] work on 32-bit integers when both operands are
    Numbers ([undefined] coerces to NaN), on integers of any size when
    both are BigInts, and throw a TypeError on a mix. *)

Definition int32 (p : prim) : Z :=
  match p with
  | Num n => ToInt32 n
  | _ => 0
  end.

Definition bitor (a b : prim) : result prim :=
  match a, b with
  | Big x, Big y => Ok (Big (Z.lor x y))
  | Big _, _ | _, Big _ => Throw TypeError
  | _, _ => Ok (Num (of_Z (wrap32 (Z.lor (int32 a) (int32 b)))))
  end.

Definition bitand (a b : prim) : result prim :=
  match a, b with
  | Big x, Big y => Ok (Big (Z.land x y))
  | Big _, _ | _, Big _ => Throw TypeError
  | _, _ => Ok (Num (of_Z (wrap32 (Z.land (int32 a) (int32 b)))))
  end.

Definition bitnot (a : prim) : prim :=
  match a with
  | Big x => Big (Z.lnot x)
  | _ => Num (of_Z (wrap32 (Z.lnot (int32 a))))
  end.

(** [a === b] *)
Definition strict_eq (a b : prim) : bool :=
  match a, b with
  | Undefined, Undefined => true
  | Num x, Num y => number_eq x y
  | Big x, Big y => x =? y
  | Inherited j, Inherited k => String.eqb j k
  | _, _ => false
  end.

(** [typeof d === typeof bit && bit >= d], for a class constant [d]. *)
Definition same_type_ge (d : prim) (bit : value) : bool :=
  match d, bit with
  | Num z, VNumber n => number_ge n z
  | Big z, VBigInt n => z <=? n
  | _, _ => false
  end.

(** ** Classes and the object store

    A class of the hierarchy is given by its two static fields and by
    whether it carries the overriding methods of [PermissionsBitField].
    [Flags] is an object used as a table: its own keys in declaration
    order with their values (keys inherited from [Object.prototype] are
    found by [get], not by [keys]). *)

Definition registry := list (string * prim).

Record class : Type := {
  DefaultBit : prim;
  Flags : registry;
  permissions : bool
}.

Record object : Type := {
  class_of : class;
  bitfield : prim;
  frozen : bool
}.

Definition heap := list object.

(** The entry of the table itself under [key]. *)
Fixpoint own (key : string) (table : registry) : option prim :=
  match table with
  | [] => None
  | (k, v) :: rest => if String.eqb k key then Some v else own key rest
  end.

(** The keys of [Object.prototype], which every object literal inherits. *)
Definition inherited_keys : list string :=
  ["constructor"; "__defineGetter__"; "__defineSetter__"; "hasOwnProperty";
   "__lookupGetter__"; "__lookupSetter__"; "isPrototypeOf";
   "propertyIsEnumerable"; "toString"; "valueOf"; "__proto__";
   "toLocaleString"].

Definition is_inherited (key : string) : bool :=
  existsb (String.eqb key) inherited_keys.

(** [table[key]]: the table's own entry, else what the prototype holds
    under [key], else [undefined]. *)
Definition get (key : string) (table : registry) : prim :=
  match own key table with
  | Some v => v
  | None => if is_inherited key then Inherited key else Undefined
  end.

(** [x.toString()] for what [Object.prototype] holds under [key]: the
    source text of a built-in function (laid out as V8 prints it), or
    ["[object Object]"] for the prototype itself. *)
Definition inherited_toString (key : string) : string :=
  if String.eqb key "__proto__" then "[object Object]"
  else
    ("function " ++ (if String.eqb key "constructor" then "Object" else key)
     ++ "() { [native code] }")%string.

(** [Object.keys(table)], in declaration order.  (JavaScript lists keys
    that are array indices first; the loops over the keys skip every
    numeric key, so their place does not matter.) *)
Definition keys (table : registry) : list string := map fst table.

Fixpoint set_nth {A : Type} (i : nat) (x : A) (l : list A) : list A :=
  match l, i with
  | [], _ => []
  | _ :: r, O => x :: r
  | y :: r, S j => y :: set_nth j x r
  end.

(** ** BitField.resolve *)

Fixpoint resolve (C : class) (h : heap) (bit : value) : result prim :=
  if same_type_ge (DefaultBit C) bit then
    match bit with
    | VNumber n => Ok (Num n)
    | VBigInt z => Ok (Big z)
    | _ => Ok Undefined
    end
  else
    match bit with
    | VInstance l =>
        match nth_error h l with
        | Some o => Ok (bitfield o)
        | None => Ok Undefined
        end
    | VArray elems =>
        ps <- sequence (map (resolve C h) elems) ;;
        fold_left (fun prev p => a <- prev ;; bitor a p) ps (Ok (DefaultBit C))
    | VString s =>
        if negb (isNaN s) then
          match DefaultBit C with
          | Big _ =>
              match StringToBigInt s with
              | Some z => Ok (Big z)
              | None => Throw SyntaxError
              end
          | _ => Ok (Num (StringToNumber s))
          end
        else
          match get s (Flags C) with
          | Undefined => Ok Undefined
          | v => Ok v
          end
    | _ => Ok Undefined
    end.

(** ** Methods of BitField

    Methods that only read take the store and the receiver; methods that
    write or allocate also return the new store. *)

Definition this_object (h : heap) (this : loc) : result object :=
  match nth_error h this with
  | Some o => Ok o
  | None => Throw TypeError
  end.

(** [new C(bits)]; an omitted or [undefined] argument takes the default. *)
Definition construct (C : class) (h : heap) (bits : value)
  : result (loc * heap) :=
  let bits := match bits with VUndefined => inject (DefaultBit C) | _ => bits end in
  b <- resolve C h bits ;;
  Ok (List.length h,
      (h ++ [{| class_of := C; bitfield := b; frozen := false |}])%list).

Definition BitField_any (h : heap) (this : loc) (bit : value) : result bool :=
  o <- this_object h this ;;
  r <- resolve (class_of o) h bit ;;
  a <- bitand (bitfield o) r ;;
  Ok (negb (strict_eq a (DefaultBit (class_of o)))).

Definition equals (h : heap) (this : loc) (bit : value) : result bool :=
  o <- this_object h this ;;
  r <- resolve (class_of o) h bit ;;
  Ok (strict_eq (bitfield o) r).

Definition BitField_has (h : heap) (this : loc) (bit : value) : result bool :=
  o <- this_object h this ;;
  r <- resolve (class_of o) h bit ;;
  a <- bitand (bitfield o) r ;;
  Ok (strict_eq a r).

Definition freeze (h : heap) (this : loc) : result (loc * heap) :=
  o <- this_object h this ;;
  Ok (this, set_nth this {| class_of := class_of o; bitfield := bitfield o;
                            frozen := true |} h).

(** The loop shared by [add] and [remove]:
    [for (const bit of bits) total |= resolve(bit)]. *)
Fixpoint total_of (C : class) (h : heap) (total : prim) (bits : list value)
  : result prim :=
  match bits with
  | [] => Ok total
  | bit :: rest =>
      r <- resolve C h bit ;;
      t <- bitor total r ;;
      total_of C h t rest
  end.

Definition add (h : heap) (this : loc) (bits : list value)
  : result (loc * heap) :=
  o <- this_object h this ;;
  total <- total_of (class_of o) h (DefaultBit (class_of o)) bits ;;
  b <- bitor (bitfield o) total ;;
  if frozen o then construct (class_of o) h (inject b)
  else Ok (this, set_nth this {| class_of := class_of o; bitfield := b;
                                 frozen := false |} h).

Definition remove (h : heap) (this : loc) (bits : list value)
  : result (loc * heap) :=
  o <- this_object h this ;;
  total <- total_of (class_of o) h (DefaultBit (class_of o)) bits ;;
  b <- bitand (bitfield o) (bitnot total) ;;
  if frozen o then construct (class_of o) h (inject b)
  else Ok (this, set_nth this {| class_of := class_of o; bitfield := b;
                                 frozen := false |} h).

Definition toJSON (h : heap) (this : loc) : result value :=
  o <- this_object h this ;;
  match bitfield o with
  | Num n => Ok (VNumber n)
  | Big z => Ok (VString (bigint_toString z))
  | Inherited key => Ok (VString (inherited_toString key))
  | Undefined => Throw TypeError
  end.

Definition valueOf (h : heap) (this : loc) : result prim :=
  o <- this_object h this ;;
  Ok (bitfield o).

(** The registry of the scenario: three permission flags. *)
Definition scenario : list (string * Z) :=
  [("ViewChannel", 1024); ("SendMessages", 2048); ("Administrator", 8)].

Section Hierarchy.

(** The table [PermissionFlagsBits] is imported from another package:
    names with bigint values, in declaration order. *)
Variable PermissionFlagsBits : list (string * Z).

Definition permission_flags : registry :=
  map (fun kv => (fst kv, Big (snd kv))) PermissionFlagsBits.

(** [PermissionFlagsBits.Administrator] *)
Definition Administrator : value :=
  inject (get "Administrator" permission_flags).

Definition BitField : class :=
  {| DefaultBit := Num (of_Z 0); Flags := []; permissions := false |}.

Definition PermissionsBitField : class :=
  {| DefaultBit := Big 0; Flags := permission_flags; permissions := true |}.

(** ** Overriding methods and dispatch

    [hasParams] is the optional [checkAdmin] argument that [missing],
    [toArray], [serialize] and the iterator pass on to [has]; [None] is
    an omitted argument. *)

Definition checkAdmin_of (hasParams : option bool) : bool :=
  match hasParams with
  | Some b => b
  | None => true
  end.

Definition PermissionsBitField_has (h : heap) (this : loc) (permission : value)
  (checkAdmin : bool) : result bool :=
  if checkAdmin then
    a <- BitField_has h this Administrator ;;
    if a then Ok true else BitField_has h this permission
  else BitField_has h this permission.

Definition PermissionsBitField_any (h : heap) (this : loc) (permission : value)
  (checkAdmin : bool) : result bool :=
  if checkAdmin then
    a <- BitField_has h this Administrator ;;
    if a then Ok true else BitField_any h this permission
  else BitField_any h this permission.

(** [this.has(bit, ...hasParams)] *)
Definition has (h : heap) (this : loc) (bit : value) (hasParams : option bool)
  : result bool :=
  o <- this_object h this ;;
  if permissions (class_of o)
  then PermissionsBitField_has h this bit (checkAdmin_of hasParams)
  else BitField_has h this bit.

Definition any (h : heap) (this : loc) (bit : value) (hasParams : option bool)
  : result bool :=
  o <- this_object h this ;;
  if permissions (class_of o)
  then PermissionsBitField_any h this bit (checkAdmin_of hasParams)
  else BitField_any h this bit.

(** The generator, run to its end:
    [for (const bitName of Object.keys(Flags))
       if (isNaN(bitName) && this.has(bitName, ...hasParams)) yield bitName] *)
Fixpoint iterate (h : heap) (this : loc) (hasParams : option bool)
  (names : list string) : result (list string) :=
  match names with
  | [] => Ok []
  | bitName :: rest =>
      y <- (if isNaN bitName then has h this (VString bitName) hasParams
            else Ok false) ;;
      more <- iterate h this hasParams rest ;;
      Ok (if y then bitName :: more else more)
  end.

Definition iterator (h : heap) (this : loc) (hasParams : option bool)
  : result (list string) :=
  o <- this_object h this ;;
  iterate h this hasParams (keys (Flags (class_of o))).

Definition BitField_toArray (h : heap) (this : loc) (hasParams : option bool)
  : result (list string) :=
  iterator h this hasParams.

(** [this.toArray(...hasParams)]; the override ignores its arguments and
    calls [super.toArray(false)]. *)
Definition toArray (h : heap) (this : loc) (hasParams : option bool)
  : result (list string) :=
  o <- this_object h this ;;
  if permissions (class_of o)
  then BitField_toArray h this (Some false)
  else BitField_toArray h this hasParams.

(** [new this.constructor(bits).remove(this).toArray(...hasParams)] *)
Definition BitField_missing (h : heap) (this : loc) (bits : value)
  (hasParams : option bool) : result (list string * heap) :=
  o <- this_object h this ;;
  t <- construct (class_of o) h bits ;;
  r <- remove (snd t) (fst t) [VInstance this] ;;
  names <- toArray (snd r) (fst r) hasParams ;;
  Ok (names, snd r).

Definition PermissionsBitField_missing (h : heap) (this : loc) (bits : value)
  (checkAdmin : bool) : result (list string * heap) :=
  if checkAdmin then
    a <- has h this Administrator None ;;
    if a then Ok ([], h) else BitField_missing h this bits None
  else BitField_missing h this bits None.

Definition missing (h : heap) (this : loc) (bits : value)
  (hasParams : option bool) : result (list string * heap) :=
  o <- this_object h this ;;
  if permissions (class_of o)
  then PermissionsBitField_missing h this bits (checkAdmin_of hasParams)
  else BitField_missing h this bits hasParams.

(** [serialize(...hasParams)]: the entries of the object it builds. *)
Fixpoint serialize_entries (h : heap) (this : loc) (hasParams : option bool)
  (entries : registry) : result (list (string * bool)) :=
  match entries with
  | [] => Ok []
  | (flag, bit) :: rest =>
      if isNaN flag then
        b <- has h this (inject bit) hasParams ;;
        more <- serialize_entries h this hasParams rest ;;
        Ok ((flag, b) :: more)
      else serialize_entries h this hasParams rest
  end.

Definition serialize (h : heap) (this : loc) (hasParams : option bool)
  : result (list (string * bool)) :=
  o <- this_object h this ;;
  serialize_entries h this hasParams (Flags (class_of o)).

End Hierarchy.

(** * Properties *)

(** ** Engines, well-formed bits *)

Definition number_engine (C : class) : Prop := DefaultBit C = Num (of_Z 0).
Definition bigint_engine (C : class) : Prop := DefaultBit C = Big 0.
Definition engine (C : class) : Prop := number_engine C \/ bigint_engine C.

(** The integer whose binary digits a bitfield value stands for. *)
Definition bits_of (p : prim) : Z :=
  match p with
  | Big z => z
  | _ => int32 p
  end.

(** A Number that [ToInt32] leaves unchanged. *)
Definition int32_valued (n : number) : bool := number_eq (of_Z (ToInt32 n)) n.

(** An unsigned integer of the engine's kind and width: a BigInt that is
    not negative, or a Number that is an integer of [0, 2^31). *)
Definition well_formed (C : class) (p : prim) : bool :=
  match DefaultBit C, p with
  | Big _, Big z => 0 <=? z
  | Num _, Num n => int32_valued n && (0 <=? ToInt32 n)
  | _, _ => false
  end.

(** A bitfield value of the class's kind that [resolve] returns as it
    is or reads back from its decimal form: a Number not below
    [DefaultBit], or any BigInt. *)
Definition accepted (C : class) (p : prim) : bool :=
  match DefaultBit C, p with
  | Big _, Big _ => true
  | Num d, Num n => number_ge n d
  | _, _ => false
  end.

(** A value of the class's kind. *)
Definition same_kind (C : class) (p : prim) : bool :=
  match DefaultBit C, p with
  | Big _, Big _ => true
  | Num _, Num _ => true
  | _, _ => false
  end.

(** A registry of an engine: no name is numeric, every value is
    well-formed. *)
Definition wf_registry (C : class) : Prop :=
  Forall (fun kv => isNaN (fst kv) = true /\ well_formed C (snd kv) = true)
         (Flags C).

(** Every instance mentioned in a value is allocated below [n]. *)
Fixpoint closed (n : nat) (v : value) : bool :=
  match v with
  | VInstance l => Nat.ltb l n
  | VArray elems => forallb (closed n) elems
  | _ => true
  end.

(** Induction on values, through the elements of arrays. *)
Fixpoint value_ind' (P : value -> Prop)
  (Hu : P VUndefined) (Hn : forall n, P (VNumber n))
  (Hz : forall z, P (VBigInt z)) (Hs : forall s, P (VString s))
  (Hb : forall b, P (VBool b)) (Hi : forall l, P (VInstance l))
  (Ha : forall elems, Forall P elems -> P (VArray elems))
  (Ho : P VOther) (v : value) : P v :=
  match v with
  | VUndefined => Hu
  | VNumber n => Hn n
  | VBigInt z => Hz z
  | VString s => Hs s
  | VBool b => Hb b
  | VInstance l => Hi l
  | VArray elems =>
      Ha elems
         ((fix all (l : list value) : Forall P l :=
             match l with
             | [] => Forall_nil P
             | x :: r =>
                 Forall_cons x (value_ind' P Hu Hn Hz Hs Hb Hi Ha Ho x) (all r)
             end) elems)
  | VOther => Ho
  end.

(** ** Resolution as the specification words it

    Step by step as the specification lists the cases; it differs from
    [resolve] in the test that sends a string to the integer parser, and
    it looks a name up among the entries of the registry only. *)

Definition only_digits (s : string) : bool :=
  match read_uint s with
  | (u, EmptyString) => negb (is_nil u)
  | _ => false
  end.

Definition decimal_value (s : string) : Z := Z.of_uint (fst (read_uint s)).

Fixpoint resolve_as_specified (C : class) (h : heap) (bit : value)
  : result prim :=
  if same_type_ge (DefaultBit C) bit then
    match bit with
    | VNumber n => Ok (Num n)
    | VBigInt z => Ok (Big z)
    | _ => Ok Undefined
    end
  else
    match bit with
    | VInstance l =>
        match nth_error h l with
        | Some o => Ok (bitfield o)
        | None => Ok Undefined
        end
    | VArray elems =>
        ps <- sequence (map (resolve_as_specified C h) elems) ;;
        fold_left (fun prev p => a <- prev ;; bitor a p) ps (Ok (DefaultBit C))
    | VString s =>
        if only_digits s then
          match DefaultBit C with
          | Big _ => Ok (Big (decimal_value s))
          | _ => Ok (Num (round_int (decimal_value s)))
          end
        else
          match own s (Flags C) with
          | Some v => Ok v
          | None => Ok Undefined
          end
    | _ => Ok Undefined
    end.

(** A value in which every string that [isNaN] takes for a number is a
    string of digits, and no string is a key of [Object.prototype]. *)
Fixpoint plain (v : value) : bool :=
  match v with
  | VString s => (isNaN s && negb (is_inherited s)) || only_digits s
  | VArray elems => forallb plain elems
  | _ => true
  end.

(** A value that holds a number: a Number or a BigInt. *)
Definition numeric (p : prim) : bool :=
  match p with
  | Num _ | Big _ => true
  | _ => false
  end.

(** ** Serialization as the specification words it

    The raw integer if it fits the native numeric representation, that
    is if a Number holds it exactly, and its decimal string otherwise. *)

Definition fits_native (z : Z) : bool := number_eq (round_int z) (of_Z z).

(** The specification speaks of a wrapped integer; for any other
    bitfield the definition follows the code. *)
Definition toJSON_as_specified (h : heap) (this : loc) : result value :=
  o <- this_object h this ;;
  match bitfield o with
  | Num n => Ok (VNumber n)
  | Big z =>
      if fits_native z then Ok (VNumber (of_Z z))
      else Ok (VString (bigint_toString z))
  | Inherited key => Ok (VString (inherited_toString key))
  | Undefined => Throw TypeError
  end.

(** The running total of a fold with [|] in a Number engine: a 32-bit
    integer. *)
Definition canonical (t : prim) : Prop := exists x, t = Num (of_Z (wrap32 x)).

(** The step of [reduce((prev, p) => prev | p, DefaultBit)]. *)
Definition or_step (prev : result prim) (p : prim) : result prim :=
  a <- prev ;; bitor a p.

(** ** Stores of the scenario *)

Definition Permissions : class := PermissionsBitField scenario.

Definition store_of (C : class) (b : prim) : heap :=
  [{| class_of := C; bitfield := b; frozen := false |}].

(** A table with the three flags of [StageModerator]. *)
Definition stage_flags : list (string * Z) :=
  [("ManageChannels", 16); ("MuteMembers", 4194304);
   ("MoveMembers", 16777216)].

(** A Number engine with three flags, without the overriding methods. *)
Definition Toggles : class :=
  {| DefaultBit := Num (of_Z 0);
     Flags := [("Read", Num (of_Z 1)); ("Write", Num (of_Z 2));
               ("Execute", Num (of_Z 4))];
     permissions := false |}.

(** Two stores hold the same bitfields below [n]. *)
Definition agree (n : nat) (h h' : heap) : Prop :=
  forall l, (l < n)%nat ->
            option_map bitfield (nth_error h l) =
            option_map bitfield (nth_error h' l).

(** A class with the overriding methods is a BigInt engine and finds
    the administrator flag in [PermissionFlagsBits]. *)
Definition administrator_ok (PermissionFlagsBits : list (string * Z))
  (C : class) : Prop :=
  permissions C = true ->
  bigint_engine C /\
  exists a, 0 <= a /\
            get "Administrator" (permission_flags PermissionFlagsBits) = Big a.


(** ** The constants of PermissionsBitField *)

(** [static All =
      Object.values(PermissionFlagsBits).reduce((all, p) => all | p, 0n)] *)
Definition All (PermissionFlagsBits : list (string * Z)) : result prim :=
  fold_left or_step (map snd (permission_flags PermissionFlagsBits))
            (Ok (Big 0)).

(** [static Default = BigInt(104324673)] *)
Definition Default : prim := Big 104324673.

(** [static StageModerator = PermissionFlagsBits.ManageChannels |
      PermissionFlagsBits.MuteMembers | PermissionFlagsBits.MoveMembers] *)
Definition StageModerator (PermissionFlagsBits : list (string * Z))
  : result prim :=
  a <- bitor (get "ManageChannels" (permission_flags PermissionFlagsBits))
             (get "MuteMembers" (permission_flags PermissionFlagsBits)) ;;
  bitor a (get "MoveMembers" (permission_flags PermissionFlagsBits)).

(** ** Unions of binary digits *)

(** The value of the engine's kind with the given binary digits. *)
Definition of_bits (C : class) (z : Z) : prim :=
  match DefaultBit C with
  | Big _ => Big z
  | _ => Num (of_Z z)
  end.

(** The integers that [|] leaves as they are in the engine: any integer
    for BigInts, the 32-bit integers for Numbers. *)
Definition in_width (C : class) (z : Z) : Prop :=
  match DefaultBit C with
  | Big _ => True
  | _ => - 2 ^ 31 <= z < 2 ^ 31
  end.

Definition union_bits (zs : list Z) : Z := fold_left Z.lor zs 0.

(** The elements of [bits] resolve, in the store [h], to the values [rs],
    all of the engine's kind. *)
Definition resolve_all (C : class) (h : heap) (bits : list value)
  (rs : list prim) : Prop :=
  Forall2 (fun v r => resolve C h v = Ok r /\ same_kind C r = true) bits rs.

(** The digits of a decimal numeral, as a string. *)
Abbreviation print := NilEmpty.string_of_uint.

(** Closes a goal [resolve_all C h bits rs] on concrete arguments. *)
Ltac resolved := repeat (constructor; [split; reflexivity |]); constructor.

(** ** Arithmetic of 32-bit integers *)

Lemma wrap32_small (z : Z) : - 2 ^ 31 <= z < 2 ^ 31 -> wrap32 z = z.
Proof.
  intros Hz. unfold wrap32.
  rewrite Z.mod_small; lia.
Qed.

Lemma wrap32_range (z : Z) : - 2 ^ 31 <= wrap32 z < 2 ^ 31.
Proof.
  unfold wrap32.
  pose proof (Z.mod_pos_bound (z + 2 ^ 31) (2 ^ 32)) as Hb.
  lia.
Qed.

Lemma wrap32_idem (z : Z) : wrap32 (wrap32 z) = wrap32 z.
Proof. apply wrap32_small, wrap32_range. Qed.

Lemma ToInt32_of_Z (z : Z) : ToInt32 (of_Z z) = wrap32 z.
Proof. simpl. now rewrite Z.quot_1_r. Qed.

Lemma ToInt32_range (n : number) : - 2 ^ 31 <= ToInt32 n < 2 ^ 31.
Proof. destruct n; simpl; try lia. apply wrap32_range. Qed.

Lemma wrap32_ToInt32 (n : number) : wrap32 (ToInt32 n) = ToInt32 n.
Proof. apply wrap32_small, ToInt32_range. Qed.

Lemma int32_range (p : prim) : - 2 ^ 31 <= int32 p < 2 ^ 31.
Proof. destruct p; simpl; try lia. apply ToInt32_range. Qed.

Lemma uint31_land_ones (z : Z) :
  0 <= z < 2 ^ 31 <-> Z.land z (Z.ones 31) = z.
Proof.
  rewrite Z.land_ones by lia. split.
  - intros Hz. apply Z.mod_small. exact Hz.
  - intros Hz. rewrite <- Hz. apply Z.mod_pos_bound. lia.
Qed.

Lemma land_uint31_r (a b : Z) :
  0 <= b < 2 ^ 31 -> 0 <= Z.land a b < 2 ^ 31.
Proof.
  intros Hb. apply uint31_land_ones.
  apply uint31_land_ones in Hb.
  rewrite <- Z.land_assoc. now rewrite Hb.
Qed.

Lemma land_uint31_l (a b : Z) :
  0 <= a < 2 ^ 31 -> 0 <= Z.land a b < 2 ^ 31.
Proof. rewrite Z.land_comm. apply land_uint31_r. Qed.

Lemma lor_uint31 (a b : Z) :
  0 <= a < 2 ^ 31 -> 0 <= b < 2 ^ 31 -> 0 <= Z.lor a b < 2 ^ 31.
Proof.
  intros Ha Hb. apply uint31_land_ones.
  apply uint31_land_ones in Ha, Hb.
  rewrite Z.land_lor_distr_l. now rewrite Ha, Hb.
Qed.

(** ** Bit masks *)

Lemma land_eq_iff_bits (b r : Z) :
  Z.land b r = r <->
  (forall i, Z.testbit r i = true -> Z.testbit b i = true).
Proof.
  split.
  - intros H i Hi. rewrite <- H in Hi.
    rewrite Z.land_spec in Hi. now apply andb_true_iff in Hi.
  - intros H. apply Z.bits_inj'. intros i _.
    rewrite Z.land_spec.
    destruct (Z.testbit r i) eqn:Hr.
    + now rewrite (H i Hr).
    + apply andb_false_r.
Qed.




(** ** Decimal strings *)

Lemma read_uint_print (u : Decimal.uint) : read_uint (print u) = (u, "").
Proof. induction u; simpl; try rewrite IHu; reflexivity. Qed.

Lemma digit_of_print (c : ascii) (D : Decimal.uint -> Decimal.uint) :
  digit_of c = Some D -> forall u, print (D u) = String c (print u).
Proof.
  destruct c as [[] [] [] [] [] [] [] []]; simpl; intros H;
    try discriminate; injection H as <-; reflexivity.
Qed.

Lemma read_uint_inv (s : string) :
  forall u rest, read_uint s = (u, rest) -> s = (print u ++ rest)%string.
Proof.
  induction s as [| c r IH]; simpl; intros u rest H.
  - now injection H as <- <-.
  - destruct (digit_of c) as [D |] eqn:Hc.
    + destruct (read_uint r) as [u' rest'] eqn:Hr.
      injection H as <- <-.
      rewrite (digit_of_print c D Hc). simpl.
      now rewrite <- (IH u' rest').
    + now injection H as <- <-.
Qed.

Lemma append_empty (s : string) : (s ++ "")%string = s.
Proof. induction s; simpl; congruence. Qed.

Lemma only_digits_inv (s : string) :
  only_digits s = true ->
  exists u, u <> Decimal.Nil /\ s = print u.
Proof.
  unfold only_digits. destruct (read_uint s) as [u rest] eqn:H.
  destruct rest; try discriminate. intros Hn.
  exists u. split.
  - intros ->. discriminate.
  - apply read_uint_inv in H. now rewrite append_empty in H.
Qed.

Lemma only_digits_print (u : Decimal.uint) :
  u <> Decimal.Nil -> only_digits (print u) = true.
Proof.
  intros Hu. unfold only_digits. rewrite read_uint_print.
  destruct u; try reflexivity. now elim Hu.
Qed.

Lemma trim_left_print (u : Decimal.uint) : trim_left (print u) = print u.
Proof. destruct u; reflexivity. Qed.

Lemma trim_right_print (u : Decimal.uint) : trim_right (print u) = print u.
Proof.
  induction u; try reflexivity; simpl; rewrite IHu;
    destruct (print u); reflexivity.
Qed.

Lemma trim_print (u : Decimal.uint) : trim (print u) = print u.
Proof. unfold trim. now rewrite trim_left_print, trim_right_print. Qed.

Lemma trim_minus_print (u : Decimal.uint) :
  trim (String "-" (print u)) = String "-" (print u).
Proof.
  unfold trim. simpl. rewrite trim_right_print.
  destruct (print u); reflexivity.
Qed.

Lemma NonDecimal_print (u : Decimal.uint) :
  NonDecimalIntegerLiteral (print u) = None.
Proof.
  destruct u as [| u | u | u | u | u | u | u | u | u | u ];
    try reflexivity; destruct u; try reflexivity; destruct u; reflexivity.
Qed.

Lemma read_sign_print (u : Decimal.uint) :
  read_sign (print u) = (false, print u).
Proof. destruct u; reflexivity. Qed.

Lemma print_nonempty (u : Decimal.uint) :
  u <> Decimal.Nil -> exists c r, print u = String c r.
Proof. destruct u; try congruence; intros _; simpl; eauto. Qed.

Lemma not_Infinity_print (u : Decimal.uint) :
  String.eqb (print u) "Infinity" = false.
Proof. destruct u; reflexivity. Qed.

Lemma StrUnsigned_print (u : Decimal.uint) :
  u <> Decimal.Nil ->
  StrUnsignedDecimalLiteral (print u) = Some (round_decimal (Z.of_uint u) 0).
Proof.
  intros Hu. unfold StrUnsignedDecimalLiteral.
  rewrite not_Infinity_print, read_uint_print. simpl.
  destruct u; try congruence; simpl; now rewrite DecimalFacts.app_nil_r.
Qed.

Lemma StringToNumber_print (u : Decimal.uint) :
  u <> Decimal.Nil ->
  StringToNumber (print u) = round_decimal (Z.of_uint u) 0.
Proof.
  intros Hu. unfold StringToNumber. rewrite trim_print.
  destruct (print_nonempty u Hu) as (c & r & E).
  rewrite NonDecimal_print. unfold StrDecimalLiteral.
  rewrite read_sign_print, (StrUnsigned_print u Hu).
  now rewrite E.
Qed.

Lemma StringToNumber_minus_print (u : Decimal.uint) :
  u <> Decimal.Nil ->
  StringToNumber (String "-" (print u)) =
  number_opp (round_decimal (Z.of_uint u) 0).
Proof.
  intros Hu. unfold StringToNumber. rewrite trim_minus_print.
  unfold StrDecimalLiteral. simpl. now rewrite (StrUnsigned_print u Hu).
Qed.

Lemma StringToBigInt_print (u : Decimal.uint) :
  u <> Decimal.Nil -> StringToBigInt (print u) = Some (Z.of_uint u).
Proof.
  intros Hu. unfold StringToBigInt. rewrite trim_print.
  destruct (print_nonempty u Hu) as (c & r & E).
  rewrite NonDecimal_print, read_sign_print, read_uint_print.
  rewrite E. destruct u; try reflexivity. now elim Hu.
Qed.

Lemma StringToBigInt_minus_print (u : Decimal.uint) :
  u <> Decimal.Nil ->
  StringToBigInt (String "-" (print u)) = Some (- Z.of_uint u).
Proof.
  intros Hu. unfold StringToBigInt. rewrite trim_minus_print.
  simpl. rewrite read_uint_print.
  destruct u; try reflexivity. now elim Hu.
Qed.

Lemma round_pos_not_NaN (n d : Z) : round_pos n d <> NaN.
Proof.
  unfold round_pos.
  destruct (scale n d (Z.log2 n - Z.log2 d - 52)) as [n0 d0].
  destruct (scale n d _) as [n1 d1].
  destruct (0 <=? _); [destruct (2 ^ 1024 <=? _) |]; discriminate.
Qed.

Lemma round_decimal_not_NaN (n k : Z) : round_decimal n k <> NaN.
Proof.
  unfold round_decimal.
  destruct (n =? 0); [discriminate |].
  destruct (0 <=? k); apply round_pos_not_NaN.
Qed.

Lemma isNaN_print (u : Decimal.uint) :
  u <> Decimal.Nil -> isNaN (print u) = false.
Proof.
  intros Hu. unfold isNaN. rewrite (StringToNumber_print u Hu).
  pose proof (round_decimal_not_NaN (Z.of_uint u) 0) as H.
  now destruct (round_decimal (Z.of_uint u) 0).
Qed.

Lemma isNaN_minus_print (u : Decimal.uint) :
  u <> Decimal.Nil -> isNaN (String "-" (print u)) = false.
Proof.
  intros Hu. unfold isNaN. rewrite (StringToNumber_minus_print u Hu).
  pose proof (round_decimal_not_NaN (Z.of_uint u) 0) as H.
  now destruct (round_decimal (Z.of_uint u) 0).
Qed.

Lemma NilZero_print (u : Decimal.uint) :
  u <> Decimal.Nil -> NilZero.string_of_uint u = print u.
Proof. destruct u; try reflexivity. intros Hu. now elim Hu. Qed.

(** [BigInt(z.toString())] is [z], and [z.toString()] is numeric. *)
Lemma bigint_toString_spec (z : Z) :
  isNaN (bigint_toString z) = false /\
  StringToBigInt (bigint_toString z) = Some z.
Proof.
  unfold bigint_toString. destruct z as [| p | p]; simpl.
  - split; reflexivity.
  - pose proof (Unsigned.to_uint_nonnil p) as Hp.
    rewrite (NilZero_print _ Hp). split.
    + now apply isNaN_print.
    + rewrite StringToBigInt_print by exact Hp.
      unfold Z.of_uint. now rewrite DecimalPos.Unsigned.of_to.
  - pose proof (Unsigned.to_uint_nonnil p) as Hp.
    rewrite (NilZero_print _ Hp). split.
    + now apply isNaN_minus_print.
    + rewrite StringToBigInt_minus_print by exact Hp.
      unfold Z.of_uint. now rewrite DecimalPos.Unsigned.of_to.
Qed.

(** ** Resolution, case by case *)

Lemma same_type_ge_other (d : prim) (v : value) :
  match v with VNumber _ | VBigInt _ => False | _ => True end ->
  same_type_ge d v = false.
Proof. destruct d, v; simpl; intros H; try reflexivity; contradiction. Qed.

Lemma resolve_unchanged (C : class) (h : heap) (bit : value) :
  same_type_ge (DefaultBit C) bit = true ->
  exists p, inject p = bit /\ resolve C h bit = Ok p.
Proof.
  intros H. destruct bit; simpl; rewrite ?H;
    try (rewrite same_type_ge_other in H by exact I; discriminate).
  - exists (Num n). now split.
  - exists (Big z). now split.
Qed.

Lemma resolve_instance (C : class) (h : heap) (l : loc) :
  resolve C h (VInstance l) =
  match nth_error h l with
  | Some o => Ok (bitfield o)
  | None => Ok Undefined
  end.
Proof. simpl. now rewrite same_type_ge_other. Qed.

Lemma resolve_array (C : class) (h : heap) (elems : list value) :
  resolve C h (VArray elems) =
  (ps <- sequence (map (resolve C h) elems) ;;
   fold_left (fun prev p => a <- prev ;; bitor a p) ps (Ok (DefaultBit C))).
Proof. simpl. now rewrite same_type_ge_other. Qed.

Lemma resolve_numeric (C : class) (h : heap) (s : string) :
  isNaN s = false ->
  resolve C h (VString s) =
  match DefaultBit C with
  | Big _ =>
      match StringToBigInt s with
      | Some z => Ok (Big z)
      | None => Throw SyntaxError
      end
  | _ => Ok (Num (StringToNumber s))
  end.
Proof. intros H. simpl. now rewrite same_type_ge_other, H. Qed.

Lemma resolve_name (C : class) (h : heap) (s : string) :
  isNaN s = true -> resolve C h (VString s) = Ok (get s (Flags C)).
Proof.
  intros H. simpl. rewrite same_type_ge_other, H by exact I. simpl.
  now destruct (get s (Flags C)).
Qed.

Lemma resolve_inject_zero (C : class) (h : heap) :
  engine C -> resolve C h (inject (DefaultBit C)) = Ok (DefaultBit C).
Proof. intros [E | E]; red in E; rewrite E; simpl; rewrite E; reflexivity. Qed.

(** ** Negative integers *)

(** C10.  An integer of the engine's kind that is below zero is not
    resolved: [resolve] returns [undefined], for a Number that is not
    [>= 0] in a Number engine and for a negative BigInt in a BigInt
    engine; the value is neither returned nor clamped to zero. *)
Theorem resolve_below_zero (C : class) (h : heap) :
  (number_engine C ->
   forall n, number_ge n (of_Z 0) = false ->
             resolve C h (VNumber n) = Ok Undefined) /\
  (bigint_engine C ->
   forall z, z < 0 -> resolve C h (VBigInt z) = Ok Undefined).
Proof.
  split; intros E; red in E.
  - intros n Hn. simpl. rewrite E. simpl. now rewrite Hn.
  - intros z Hz. simpl. rewrite E. simpl.
    destruct (Z.leb_spec 0 z); [lia | reflexivity].
Qed.

(** ** Serialization *)

Lemma bigint_toString_digits (z : Z) :
  0 <= z -> only_digits (bigint_toString z) = true.
Proof.
  unfold bigint_toString. destruct z as [| p | p]; simpl; intros Hz.
  - reflexivity.
  - pose proof (Unsigned.to_uint_nonnil p) as Hp.
    rewrite (NilZero_print _ Hp). now apply only_digits_print.
  - lia.
Qed.

(** C8, as the code has it.  What [toJSON] returns depends on the kind
    of the wrapped value, not on its magnitude.  A Number is returned as
    it is.  A BigInt is returned as its decimal string, however small it
    is: never as a Number and never as the BigInt itself.  That string
    is the canonical numeral of the integer, is made of digits only when
    the integer is not negative, and reads back as the same integer.
    The code agrees with the specification's wording exactly on the
    instances that do not wrap a BigInt that a Number holds exactly. *)
Theorem toJSON_scalar (h : heap) (this : loc) (o : object) :
  nth_error h this = Some o ->
  (forall n, bitfield o = Num n -> toJSON h this = Ok (VNumber n)) /\
  (forall z, bitfield o = Big z ->
             toJSON h this = Ok (VString (bigint_toString z)) /\
             bigint_toString z = NilZero.string_of_int (Z.to_int z) /\
             StringToBigInt (bigint_toString z) = Some z /\
             (0 <= z -> only_digits (bigint_toString z) = true) /\
             toJSON h this <> Ok (VNumber (of_Z z)) /\
             toJSON h this <> Ok (VBigInt z)) /\
  (toJSON h this = toJSON_as_specified h this <->
   forall z, bitfield o = Big z -> fits_native z = false).
Proof.
  intros Ho. unfold toJSON, toJSON_as_specified, this_object.
  rewrite Ho. cbn [bind]. split; [| split].
  - intros n ->. reflexivity.
  - intros z ->. split; [reflexivity |]. split; [reflexivity |].
    split; [apply bigint_toString_spec |].
    split; [apply bigint_toString_digits |].
    split; discriminate.
  - destruct (bitfield o) as [| n | z | k].
    + split; [intros _ z H; discriminate H | reflexivity].
    + split; [intros _ z H; discriminate H | reflexivity].
    + destruct (fits_native z) eqn:Hf; split.
      * intros H. discriminate H.
      * intros H. specialize (H z eq_refl). congruence.
      * intros _ z' [= <-]. exact Hf.
      * reflexivity.
    + split; [intros _ z H; discriminate H | reflexivity].
Qed.

(** C9.  For an instance whose bitfield is of its class's kind (a Number
    not below the default, or any BigInt), constructing an instance of the
    same class from the result of [toJSON] allocates a new object with the
    same bitfield. *)
Theorem toJSON_construct (h : heap) (this : loc) (o : object) :
  nth_error h this = Some o ->
  accepted (class_of o) (bitfield o) = true ->
  exists j,
    toJSON h this = Ok j /\
    construct (class_of o) h j =
    Ok (List.length h,
        (h ++ [{| class_of := class_of o; bitfield := bitfield o;
                  frozen := false |}])%list).
Proof.
  intros Ho Hacc. unfold toJSON, this_object. rewrite Ho. simpl.
  unfold accepted in Hacc.
  destruct (DefaultBit (class_of o)) as [| d | d | kd] eqn:Ed;
    destruct (bitfield o) as [| n | z | kn] eqn:Eb; try discriminate.
  - exists (VNumber n). split; [reflexivity |].
    unfold construct. simpl. rewrite Ed. simpl. now rewrite Hacc.
  - exists (VString (bigint_toString z)). split; [reflexivity |].
    unfold construct.
    destruct (bigint_toString_spec z) as [Hnan Hparse].
    rewrite (resolve_numeric _ _ _ Hnan), Ed, Hparse. reflexivity.
Qed.

(** ** Masks on bitfield values *)

Lemma number_eq_int32_valued (n : number) (z : Z) :
  int32_valued n = true -> number_eq (of_Z z) n = (z =? ToInt32 n).
Proof.
  unfold int32_valued. destruct n as [| s | q]; try discriminate.
  unfold of_Z, number_eq. intros H. apply Qeq_bool_iff in H.
  destruct (Z.eqb_spec z (ToInt32 (Finite q))) as [-> | Hne].
  - now apply Qeq_bool_iff.
  - destruct (Qeq_bool (inject_Z z) q) eqn:Hq; [| reflexivity].
    apply Qeq_bool_iff in Hq. elim Hne.
    apply inject_Z_injective. now rewrite H, Hq.
Qed.

Lemma well_formed_same_kind (C : class) (p : prim) :
  well_formed C p = true -> same_kind C p = true.
Proof.
  unfold well_formed, same_kind.
  destruct (DefaultBit C), p; congruence.
Qed.

Lemma well_formed_uint31 (C : class) (d n : number) :
  DefaultBit C = Num d -> well_formed C (Num n) = true ->
  int32_valued n = true /\ 0 <= ToInt32 n < 2 ^ 31.
Proof.
  unfold well_formed. intros ->. intros H.
  apply andb_true_iff in H as [Hv Hs]. split; [exact Hv |].
  apply Z.leb_le in Hs. pose proof (ToInt32_range n). lia.
Qed.

Lemma mask_test (C : class) (b r : prim) :
  same_kind C b = true -> well_formed C r = true ->
  exists a, bitand b r = Ok a /\
            strict_eq a r = (Z.land (bits_of b) (bits_of r) =? bits_of r).
Proof.
  unfold same_kind. intros Hb Hr.
  destruct (DefaultBit C) as [| d | d | kd] eqn:Ed; try discriminate;
    destruct b as [| nb | zb | knb]; try discriminate;
    destruct r as [| nr | zr | knr];
    try (unfold well_formed in Hr; rewrite Ed in Hr; discriminate).
  - destruct (well_formed_uint31 C d nr Ed Hr) as [Hv Hrange].
    eexists. split; [reflexivity |]. cbn [strict_eq bits_of int32].
    rewrite (number_eq_int32_valued nr _ Hv).
    rewrite wrap32_small; [reflexivity |].
    pose proof (land_uint31_r (ToInt32 nb) (ToInt32 nr) Hrange). lia.
  - eexists. split; reflexivity.
Qed.

Lemma BitField_has_mask (h : heap) (this : loc) (o : object) (bit : value)
  (r : prim) :
  nth_error h this = Some o ->
  same_kind (class_of o) (bitfield o) = true ->
  resolve (class_of o) h bit = Ok r ->
  well_formed (class_of o) r = true ->
  BitField_has h this bit =
  Ok (Z.land (bits_of (bitfield o)) (bits_of r) =? bits_of r).
Proof.
  intros Ho Hb Hr Hw. unfold BitField_has, this_object.
  rewrite Ho. simpl. rewrite Hr. simpl.
  destruct (mask_test _ _ _ Hb Hw) as (a & Ha & Hs).
  rewrite Ha. simpl. now rewrite Hs.
Qed.

(** ** The store *)

Lemma nth_error_new {A : Type} (l : list A) (x : A) :
  nth_error (l ++ [x])%list (List.length l) = Some x.
Proof. rewrite nth_error_app2, Nat.sub_diag by lia. reflexivity. Qed.

Lemma nth_error_old {A : Type} (l : list A) (x : A) (i : nat) :
  (i < List.length l)%nat -> nth_error (l ++ [x])%list i = nth_error l i.
Proof. intros Hi. now apply nth_error_app1. Qed.

Lemma nth_error_set_nth_eq {A : Type} (l : list A) (i : nat) (x y : A) :
  nth_error l i = Some y -> nth_error (set_nth i x l) i = Some x.
Proof.
  revert i. induction l as [| a l IH]; intros [| i]; simpl;
    try discriminate; auto.
Qed.

Lemma nth_error_set_nth_ne {A : Type} (l : list A) (i j : nat) (x : A) :
  i <> j -> nth_error (set_nth i x l) j = nth_error l j.
Proof.
  revert i j. induction l as [| a l IH]; intros [| i] [| j] H; simpl;
    try reflexivity; try congruence.
  apply IH. congruence.
Qed.

Lemma length_set_nth {A : Type} (l : list A) (i : nat) (x : A) :
  List.length (set_nth i x l) = List.length l.
Proof.
  revert i. induction l as [| a l IH]; intros [| i]; simpl; auto.
Qed.

Lemma construct_new (C : class) (h : heap) (bits : value) (b : prim) :
  bits <> VUndefined -> resolve C h bits = Ok b ->
  construct C h bits =
  Ok (List.length h,
      (h ++ [{| class_of := C; bitfield := b; frozen := false |}])%list).
Proof.
  intros Hb Hr. unfold construct.
  destruct bits; try congruence; now rewrite Hr.
Qed.

(** ** Registries *)

Lemma get_Forall (Q : string * prim -> Prop) (fl : registry) (name : string) :
  Forall Q fl -> In name (keys fl) -> Q (name, get name fl).
Proof.
  intros HQ Hin.
  assert (H : exists v, own name fl = Some v /\ Q (name, v)).
  { induction HQ as [| [k v] fl Hkv _ IH]; simpl in *; [contradiction |].
    destruct (String.eqb_spec k name) as [-> | Hne].
    - now exists v.
    - destruct Hin as [-> | Hin]; [contradiction | now apply IH]. }
  destruct H as (v & Hv & Hq). unfold get. now rewrite Hv.
Qed.

Lemma wf_registry_name (C : class) (name : string) :
  wf_registry C -> In name (keys (Flags C)) ->
  isNaN name = true /\ well_formed C (get name (Flags C)) = true.
Proof.
  intros Hwf Hin.
  exact (get_Forall _ _ _ Hwf Hin).
Qed.

Lemma bitor_zero (C : class) (v : prim) :
  engine C -> well_formed C v = true ->
  exists r, bitor (DefaultBit C) v = Ok r /\
            same_kind C r = true /\ bits_of r = bits_of v.
Proof.
  intros [E | E] Hv; red in E; unfold well_formed, same_kind in *;
    rewrite E in *; destruct v as [| n | z | kn]; try discriminate.
  - eexists. split; [reflexivity |]. split; [reflexivity |].
    cbn [bits_of int32]. rewrite !ToInt32_of_Z.
    change (wrap32 0) with 0. rewrite Z.lor_0_l, wrap32_idem.
    apply wrap32_ToInt32.
  - eexists. split; [reflexivity |]. split; reflexivity.
Qed.

(** ** Membership *)

Lemma BitField_has_bits (h : heap) (this : loc) (o : object) (bit : value)
  (r : prim) :
  nth_error h this = Some o ->
  same_kind (class_of o) (bitfield o) = true ->
  resolve (class_of o) h bit = Ok r ->
  well_formed (class_of o) r = true ->
  (BitField_has h this bit = Ok true <->
   forall i, Z.testbit (bits_of r) i = true ->
             Z.testbit (bits_of (bitfield o)) i = true).
Proof.
  intros Ho Hb Hr Hw.
  rewrite (BitField_has_mask h this o bit r Ho Hb Hr Hw).
  rewrite <- land_eq_iff_bits. split.
  - intros H. injection H as H. now apply Z.eqb_eq.
  - intros H. f_equal. now apply Z.eqb_eq.
Qed.

Lemma engine_zero (C : class) :
  engine C ->
  same_kind C (DefaultBit C) = true /\ bits_of (DefaultBit C) = 0 /\
  inject (DefaultBit C) <> VUndefined.
Proof.
  intros [E | E]; red in E; unfold same_kind; rewrite E;
    repeat split; discriminate.
Qed.

Lemma has_after_construct (C : class) (h : heap) (bits : value) (r : prim)
  (name : string) :
  bits <> VUndefined -> resolve C h bits = Ok r -> same_kind C r = true ->
  isNaN name = true -> well_formed C (get name (Flags C)) = true ->
  exists l h',
    construct C h bits = Ok (l, h') /\
    BitField_has h' l (VString name) =
    Ok (Z.land (bits_of r) (bits_of (get name (Flags C)))
        =? bits_of (get name (Flags C))).
Proof.
  intros Hb Hr Hk Hnan Hwf.
  exists (List.length h),
    (h ++ [{| class_of := C; bitfield := r; frozen := false |}])%list.
  split; [apply construct_new; assumption |].
  apply (BitField_has_mask _ _
           {| class_of := C; bitfield := r; frozen := false |}).
  - apply nth_error_new.
  - exact Hk.
  - now apply resolve_name.
  - exact Hwf.
Qed.

(** C7.  The generic [has] answers true exactly when every binary digit
    set in the resolved value is set in the bitfield, that is when
    [(bitfield & resolved) === resolved]; hence an instance constructed
    from a flag of the registry (given by name, alone or in an array) has
    that flag, and an instance constructed from the zero value has no
    flag whose value is not zero. *)
Theorem has_iff_mask :
  (forall (h : heap) (this : loc) (o : object) (bit : value) (r : prim),
      nth_error h this = Some o ->
      same_kind (class_of o) (bitfield o) = true ->
      resolve (class_of o) h bit = Ok r ->
      well_formed (class_of o) r = true ->
      BitField_has h this bit =
      Ok (Z.land (bits_of (bitfield o)) (bits_of r) =? bits_of r) /\
      (BitField_has h this bit = Ok true <->
       forall i, Z.testbit (bits_of r) i = true ->
                 Z.testbit (bits_of (bitfield o)) i = true)) /\
  (forall (C : class) (h : heap) (name : string),
      engine C -> wf_registry C -> In name (keys (Flags C)) ->
      (forall bits, bits = VString name \/ bits = VArray [VString name] ->
         exists l h', construct C h bits = Ok (l, h') /\
                      BitField_has h' l (VString name) = Ok true) /\
      (bits_of (get name (Flags C)) <> 0 ->
       exists l h', construct C h (inject (DefaultBit C)) = Ok (l, h') /\
                    BitField_has h' l (VString name) = Ok false)).
Proof.
  split.
  - intros h this o bit r Ho Hb Hr Hw. split.
    + now apply BitField_has_mask.
    + now apply BitField_has_bits.
  - intros C h name HE Hreg Hin.
    destruct (wf_registry_name C name Hreg Hin) as [Hnan Hwf].
    split.
    + intros bits [-> | ->].
      * destruct (has_after_construct C h (VString name) _ name
                    ltac:(discriminate) (resolve_name C h name Hnan)
                    (well_formed_same_kind _ _ Hwf) Hnan Hwf)
          as (l & h' & Hc & Hh).
        exists l, h'. split; [exact Hc |].
        now rewrite Hh, Z.land_diag, Z.eqb_refl.
      * destruct (bitor_zero C _ HE Hwf) as (r & Hor & Hk & Hbits).
        assert (Hres : resolve C h (VArray [VString name]) = Ok r).
        { rewrite resolve_array. cbn [map].
          rewrite (resolve_name C h name Hnan).
          cbn [sequence bind fold_left]. exact Hor. }
        destruct (has_after_construct C h (VArray [VString name]) r name
                    ltac:(discriminate) Hres Hk Hnan Hwf)
          as (l & h' & Hc & Hh).
        exists l, h'. split; [exact Hc |].
        now rewrite Hh, Hbits, Z.land_diag, Z.eqb_refl.
    + intros Hnz.
      destruct (engine_zero C HE) as (Hk & Hz & Hd).
      destruct (has_after_construct C h _ _ name
                  Hd (resolve_inject_zero C h HE) Hk Hnan Hwf)
        as (l & h' & Hc & Hh).
      exists l, h'. split; [exact Hc |].
      rewrite Hh, Hz, Z.land_0_l. f_equal.
      apply Z.eqb_neq. congruence.
Qed.

(** ** Folding with bitwise OR *)

Lemma resolve_array_fold (C : class) (h : heap) (elems : list value) :
  resolve C h (VArray elems) =
  (ps <- sequence (map (resolve C h) elems) ;;
   fold_left or_step ps (Ok (DefaultBit C))).
Proof. apply resolve_array. Qed.

Lemma fold_or_Throw (ps : list prim) (e : error) :
  fold_left or_step ps (Throw e) = Throw e.
Proof. induction ps; simpl; auto. Qed.

Lemma sequence_app {A : Type} (ms1 ms2 : list (result A)) :
  sequence (ms1 ++ ms2) =
  (a <- sequence ms1 ;; b <- sequence ms2 ;; Ok (a ++ b)%list).
Proof.
  induction ms1 as [| m ms1 IH]; simpl.
  - now destruct (sequence ms2).
  - destruct m; simpl; [| reflexivity].
    rewrite IH. destruct (sequence ms1); simpl; [| reflexivity].
    now destruct (sequence ms2).
Qed.

Lemma canonical_zero : canonical (Num (of_Z 0)).
Proof. now exists 0. Qed.

Lemma bitor_canonical_absent (t r : prim) :
  canonical t -> numeric r = false -> bitor t r = Ok t.
Proof.
  intros [x ->] Hr. destruct r; try discriminate; cbn [bitor int32];
    now rewrite ToInt32_of_Z, Z.lor_0_r, !wrap32_idem.
Qed.

Lemma bitor_canonical (t r : prim) :
  canonical t ->
  (exists t', bitor t r = Ok t' /\ canonical t') \/
  (exists e, bitor t r = Throw e).
Proof.
  intros [x ->]. destruct r; cbn [bitor]; eauto; left; eexists;
    (split; [reflexivity | eexists; reflexivity]).
Qed.

Lemma total_of_skip (C : class) (h : heap) (bad : value) (r : prim)
  (l2 : list value) :
  resolve C h bad = Ok r -> numeric r = false ->
  forall l1 t, canonical t ->
               total_of C h t (l1 ++ bad :: l2) = total_of C h t (l1 ++ l2).
Proof.
  intros Hbad Hr. induction l1 as [| a l1 IH]; intros t Ht; simpl.
  - rewrite Hbad. simpl. now rewrite (bitor_canonical_absent t r Ht Hr).
  - destruct (resolve C h a) as [p | e]; simpl; [| reflexivity].
    destruct (bitor_canonical t p Ht) as [(t' & -> & Ht') | (e & ->)];
      simpl; auto.
Qed.

Lemma fold_or_skip (r : prim) (ps2 : list prim) :
  numeric r = false ->
  forall ps1 t, canonical t ->
                fold_left or_step (ps1 ++ r :: ps2) (Ok t) =
                fold_left or_step (ps1 ++ ps2) (Ok t).
Proof.
  intros Hr. induction ps1 as [| p ps1 IH]; intros t Ht; simpl.
  - now rewrite (bitor_canonical_absent t r Ht Hr).
  - destruct (bitor_canonical t p Ht) as [(t' & -> & Ht') | (e & ->)].
    + now apply IH.
    + now rewrite !fold_or_Throw.
Qed.

Lemma resolve_array_skip (C : class) (h : heap) (bad : value) (r : prim)
  (l1 l2 : list value) :
  number_engine C -> resolve C h bad = Ok r -> numeric r = false ->
  resolve C h (VArray (l1 ++ bad :: l2)) = resolve C h (VArray (l1 ++ l2)).
Proof.
  intros E Hbad Hr. rewrite !resolve_array_fold, !map_app, !sequence_app.
  cbn [map sequence]. rewrite Hbad.
  destruct (sequence (map (resolve C h) l1)) as [ps1 | e]; simpl;
    [| reflexivity].
  destruct (sequence (map (resolve C h) l2)) as [ps2 | e]; simpl;
    [| reflexivity].
  rewrite E. now apply fold_or_skip, canonical_zero.
Qed.

Lemma bitor_big_absent (x : Z) (r : prim) :
  numeric r = false -> bitor (Big x) r = Throw TypeError.
Proof. destruct r; try discriminate; reflexivity. Qed.

Lemma bitor_big_cases (x : Z) (p : prim) :
  (exists y, bitor (Big x) p = Ok (Big y)) \/
  bitor (Big x) p = Throw TypeError.
Proof. destruct p; cbn [bitor]; eauto. Qed.

Lemma total_of_big_throws (C : class) (h : heap) (bad : value) (r : prim)
  (l2 : list value) :
  resolve C h bad = Ok r -> numeric r = false ->
  forall l1 x,
    (exists e, total_of C h (Big x) (l1 ++ bad :: l2) = Throw e) /\
    ((forall v, In v l1 -> exists p, resolve C h v = Ok p) ->
     total_of C h (Big x) (l1 ++ bad :: l2) = Throw TypeError).
Proof.
  intros Hbad Hr. induction l1 as [| a l1 IH]; intros x;
    cbn [app total_of].
  - rewrite Hbad. cbn [bind]. rewrite (bitor_big_absent x r Hr).
    cbn [bind]. eauto.
  - destruct (resolve C h a) as [p | e] eqn:Ha; cbn [bind].
    + destruct (bitor_big_cases x p) as [[y ->] | ->]; cbn [bind].
      * destruct (IH y) as [He Ht]. split; [exact He |].
        intros Hall. apply Ht. intros v Hv. apply Hall. now right.
      * eauto.
    + split; [eauto |]. intros Hall.
      destruct (Hall a (or_introl eq_refl)) as [p Hp]. congruence.
Qed.

Lemma fold_or_big_throws (r : prim) (ps2 : list prim) :
  numeric r = false ->
  forall ps1 x,
    fold_left or_step (ps1 ++ r :: ps2) (Ok (Big x)) = Throw TypeError.
Proof.
  intros Hr. induction ps1 as [| p ps1 IH]; intros x;
    cbn [app fold_left].
  - change (or_step (Ok (Big x)) r) with (bitor (Big x) r).
    rewrite (bitor_big_absent x r Hr). apply fold_or_Throw.
  - change (or_step (Ok (Big x)) p) with (bitor (Big x) p).
    destruct (bitor_big_cases x p) as [[y ->] | ->].
    + apply IH.
    + apply fold_or_Throw.
Qed.

Lemma sequence_all_ok {A : Type} (f : value -> result A) (l : list value) :
  (forall v, In v l -> exists p, f v = Ok p) ->
  exists ps, sequence (map f l) = Ok ps.
Proof.
  induction l as [| a l IH]; intros Hall; simpl; [eauto |].
  destruct (Hall a (or_introl eq_refl)) as [p ->].
  destruct IH as [ps ->]; [intros v Hv; apply Hall; now right |].
  simpl. eauto.
Qed.

Lemma resolve_array_big_throws (C : class) (h : heap) (bad : value)
  (r : prim) (l1 l2 : list value) :
  bigint_engine C -> resolve C h bad = Ok r -> numeric r = false ->
  (exists e, resolve C h (VArray (l1 ++ bad :: l2)) = Throw e) /\
  ((forall v, In v (l1 ++ l2) -> exists p, resolve C h v = Ok p) ->
   resolve C h (VArray (l1 ++ bad :: l2)) = Throw TypeError).
Proof.
  intros E Hbad Hr. rewrite resolve_array_fold, map_app, sequence_app.
  cbn [map sequence]. rewrite Hbad. red in E. split.
  - destruct (sequence (map (resolve C h) l1)) as [ps1 | e]; simpl; eauto.
    destruct (sequence (map (resolve C h) l2)) as [ps2 | e]; simpl; eauto.
    rewrite E, (fold_or_big_throws r ps2 Hr). eauto.
  - intros Hall.
    destruct (sequence_all_ok (resolve C h) l1) as [ps1 ->];
      [intros v Hv; apply Hall, in_or_app; now left |].
    destruct (sequence_all_ok (resolve C h) l2) as [ps2 ->];
      [intros v Hv; apply Hall, in_or_app; now right |].
    simpl. rewrite E. now apply fold_or_big_throws.
Qed.

(** C3, as the code has it.  A name that is a key neither of the
    registry nor of [Object.prototype], and a value of a type that is
    not resolvable ([undefined], a boolean, an object that is neither an
    instance nor an array, a number of the other kind), make [resolve]
    return [undefined] without throwing.
    In a Number engine an element that resolves to no number adds
    nothing to the fold: [add], [remove] and the resolution of an array
    behave as if the element were not there.  In a BigInt engine the
    fold [total |= undefined] mixes a BigInt with a value that is no
    BigInt: [add], [remove] and the resolution of an array throw, and
    what they throw is a TypeError when the other elements resolve. *)
Theorem unresolvable_in_fold (h : heap) (this : loc) (o : object)
  (bad : value) (r : prim) (l1 l2 : list value) :
  nth_error h this = Some o ->
  resolve (class_of o) h bad = Ok r ->
  numeric r = false ->
  ((forall s, isNaN s = true -> get s (Flags (class_of o)) = Undefined ->
              resolve (class_of o) h (VString s) = Ok Undefined) /\
   resolve (class_of o) h VOther = Ok Undefined /\
   resolve (class_of o) h VUndefined = Ok Undefined /\
   (forall b, resolve (class_of o) h (VBool b) = Ok Undefined) /\
   (forall z, number_engine (class_of o) ->
              resolve (class_of o) h (VBigInt z) = Ok Undefined) /\
   (forall n, bigint_engine (class_of o) ->
              resolve (class_of o) h (VNumber n) = Ok Undefined)) /\
  (number_engine (class_of o) ->
   add h this (l1 ++ bad :: l2) = add h this (l1 ++ l2) /\
   remove h this (l1 ++ bad :: l2) = remove h this (l1 ++ l2) /\
   resolve (class_of o) h (VArray (l1 ++ bad :: l2)) =
   resolve (class_of o) h (VArray (l1 ++ l2))) /\
  (bigint_engine (class_of o) ->
   (exists e, add h this (l1 ++ bad :: l2) = Throw e) /\
   (exists e, remove h this (l1 ++ bad :: l2) = Throw e) /\
   (exists e, resolve (class_of o) h (VArray (l1 ++ bad :: l2)) = Throw e) /\
   ((forall v, In v l1 -> exists p, resolve (class_of o) h v = Ok p) ->
    add h this (l1 ++ bad :: l2) = Throw TypeError /\
    remove h this (l1 ++ bad :: l2) = Throw TypeError) /\
   ((forall v, In v (l1 ++ l2) ->
               exists p, resolve (class_of o) h v = Ok p) ->
    resolve (class_of o) h (VArray (l1 ++ bad :: l2)) = Throw TypeError)).
Proof.
  intros Ho Hbad Hr. split; [| split].
  - split; [| split; [| split; [| split; [| split]]]].
    + intros s Hs Hg. now rewrite (resolve_name _ _ _ Hs), Hg.
    + simpl. now rewrite same_type_ge_other.
    + simpl. now rewrite same_type_ge_other.
    + intros b. simpl. now rewrite same_type_ge_other.
    + intros z E. red in E. simpl. now rewrite E.
    + intros n E. red in E. simpl. now rewrite E.
  - intros E. split; [| split].
    + unfold add, this_object. rewrite Ho. cbn [bind].
      red in E. rewrite E.
      now rewrite (total_of_skip _ _ _ r l2 Hbad Hr l1 _ canonical_zero).
    + unfold remove, this_object. rewrite Ho. cbn [bind].
      red in E. rewrite E.
      now rewrite (total_of_skip _ _ _ r l2 Hbad Hr l1 _ canonical_zero).
    + now apply (resolve_array_skip _ _ _ r).
  - intros E.
    destruct (total_of_big_throws _ _ _ r l2 Hbad Hr l1 0) as [[e He] Ht].
    destruct (resolve_array_big_throws _ h bad r l1 l2 E Hbad Hr)
      as [Harr HarrT].
    assert (Hadd : forall res,
               total_of (class_of o) h (Big 0) (l1 ++ bad :: l2) = Throw res ->
               add h this (l1 ++ bad :: l2) = Throw res /\
               remove h this (l1 ++ bad :: l2) = Throw res).
    { intros res Hres. unfold add, remove, this_object. rewrite Ho.
      cbn [bind]. red in E. rewrite E, Hres. now split. }
    split; [| split; [| split; [| split]]].
    + exists e. now apply Hadd.
    + exists e. now apply Hadd.
    + exact Harr.
    + intros Hall. apply Hadd. now apply Ht.
    + exact HarrT.
Qed.

Lemma lor_int32 (a b : Z) :
  - 2 ^ 31 <= a < 2 ^ 31 -> - 2 ^ 31 <= b < 2 ^ 31 ->
  - 2 ^ 31 <= Z.lor a b < 2 ^ 31.
Proof.
  intros Ha Hb.
  destruct (Z.le_gt_cases 0 a) as [Ha0 | Ha0];
    [destruct (Z.le_gt_cases 0 b) as [Hb0 | Hb0] |].
  - pose proof (lor_uint31 a b). lia.
  - assert (H : 0 <= Z.land (Z.lnot a) (Z.lnot b) < 2 ^ 31).
    { apply land_uint31_r. rewrite Z.lnot_eq_pred_opp. lia. }
    rewrite <- Z.lnot_lor in H. rewrite Z.lnot_eq_pred_opp in H. lia.
  - assert (H : 0 <= Z.land (Z.lnot a) (Z.lnot b) < 2 ^ 31).
    { apply land_uint31_l. rewrite Z.lnot_eq_pred_opp. lia. }
    rewrite <- Z.lnot_lor in H. rewrite Z.lnot_eq_pred_opp in H. lia.
Qed.

Lemma bitor_bits (C : class) (a b : prim) :
  same_kind C a = true -> same_kind C b = true ->
  exists r, bitor a b = Ok r /\ same_kind C r = true /\
            bits_of r = Z.lor (bits_of a) (bits_of b).
Proof.
  unfold same_kind.
  destruct (DefaultBit C) as [| d | d | kd]; try discriminate;
    destruct a as [| na | za | kna]; try discriminate;
    destruct b as [| nb | zb | knb]; try discriminate; intros _ _;
    eexists; (split; [reflexivity |]); (split; [reflexivity |]).
  - cbn [bits_of int32]. rewrite ToInt32_of_Z, wrap32_idem.
    apply wrap32_small, lor_int32; apply ToInt32_range.
  - reflexivity.
Qed.

Lemma bitor_zero_l (C : class) (a : prim) :
  engine C -> same_kind C a = true ->
  exists r, bitor (DefaultBit C) a = Ok r /\ same_kind C r = true /\
            bits_of r = bits_of a /\ forall b, bitor r b = bitor a b.
Proof.
  intros [E | E]; red in E; unfold same_kind; rewrite E;
    destruct a as [| na | za | kna]; try discriminate; intros _;
    eexists; (split; [reflexivity |]); (split; [reflexivity |]).
  - cbn [bits_of int32]. rewrite !ToInt32_of_Z.
    change (wrap32 0) with 0. rewrite Z.lor_0_l, !wrap32_idem, wrap32_ToInt32.
    split; [reflexivity |].
    intros b. destruct b; cbn [bitor int32];
      rewrite ?ToInt32_of_Z, ?wrap32_ToInt32; reflexivity.
  - split; reflexivity.
Qed.

(** C5.  For elements that resolve to values of the engine's kind, the
    array [[a, b, c]] resolves to [resolve(a) | resolve(b) | resolve(c)],
    whose binary digits are the union of the three; the empty array
    resolves to the zero value. *)
Theorem resolve_union (C : class) (h : heap) (a b c : value)
  (ra rb rc : prim) :
  engine C ->
  resolve C h a = Ok ra -> resolve C h b = Ok rb -> resolve C h c = Ok rc ->
  same_kind C ra = true -> same_kind C rb = true -> same_kind C rc = true ->
  resolve C h (VArray [a; b; c]) = (x <- bitor ra rb ;; bitor x rc) /\
  (exists r, resolve C h (VArray [a; b; c]) = Ok r /\
             same_kind C r = true /\
             bits_of r = Z.lor (Z.lor (bits_of ra) (bits_of rb)) (bits_of rc)) /\
  resolve C h (VArray []) = Ok (DefaultBit C).
Proof.
  intros HE Ha Hb Hc Ka Kb Kc.
  assert (Heq : resolve C h (VArray [a; b; c]) =
                (x <- bitor ra rb ;; bitor x rc)).
  { rewrite resolve_array_fold. cbn [map]. rewrite Ha, Hb, Hc.
    cbn [sequence bind fold_left or_step].
    destruct (bitor_zero_l C ra HE Ka) as (r0 & -> & _ & _ & Hsame).
    unfold or_step. cbn [bind]. now rewrite Hsame. }
  split; [exact Heq |]. split.
  - rewrite Heq.
    destruct (bitor_bits C ra rb Ka Kb) as (x & -> & Kx & Bx).
    cbn [bind].
    destruct (bitor_bits C x rc Kx Kc) as (r & -> & Kr & Br).
    exists r. repeat split; [exact Kr |]. now rewrite Br, Bx.
  - rewrite resolve_array_fold. reflexivity.
Qed.

(** ** Resolution against the specified algorithm *)

Lemma only_digits_numeric (s : string) :
  only_digits s = true ->
  isNaN s = false /\
  StringToBigInt s = Some (decimal_value s) /\
  StringToNumber s = round_int (decimal_value s).
Proof.
  intros H. destruct (only_digits_inv s H) as (u & Hu & ->).
  unfold decimal_value. rewrite read_uint_print. cbn [fst].
  split; [now apply isNaN_print |].
  split; [now apply StringToBigInt_print |].
  rewrite (StringToNumber_print u Hu). unfold round_int.
  destruct (Z.ltb_spec (Z.of_uint u) 0) as [Hneg | _]; [| reflexivity].
  unfold Z.of_uint in Hneg. pose proof (N2Z.is_nonneg (Pos.of_uint u)). lia.
Qed.

Lemma map_ext_pred (P : value -> bool) (f g : value -> result prim)
  (l : list value) :
  Forall (fun v => P v = true -> f v = g v) l ->
  forallb P l = true -> map f l = map g l.
Proof.
  induction 1 as [| v l Hv _ IH]; simpl; [reflexivity |].
  intros H. apply andb_true_iff in H as [Hp Hl].
  now rewrite (Hv Hp), (IH Hl).
Qed.

Lemma resolve_plain (C : class) (h : heap) (bit : value) :
  plain bit = true -> resolve C h bit = resolve_as_specified C h bit.
Proof.
  induction bit as [| n | z | s | b | l | elems IH |] using value_ind';
    intros Hp; try reflexivity.
  - simpl in Hp. simpl. rewrite same_type_ge_other by exact I.
    destruct (only_digits s) eqn:Hd.
    + destruct (only_digits_numeric s Hd) as (Hnan & Hbig & Hnum).
      rewrite Hnan, Hbig, Hnum. reflexivity.
    + rewrite orb_false_r in Hp. apply andb_true_iff in Hp as [Hnan Hinh].
      apply negb_true_iff in Hinh. rewrite Hnan. cbn [negb].
      unfold get. rewrite Hinh.
      destruct (own s (Flags C)) as [[| n | z | k] |]; reflexivity.
  - simpl in Hp. simpl. rewrite same_type_ge_other by exact I.
    now rewrite (map_ext_pred plain _ _ elems IH Hp).
Qed.

(** C2, as the code has it.  [resolve] goes through the six cases in the
    order given, and agrees with the algorithm as specified on every
    value in which each string that [isNaN] takes for a number is a
    string of digits and no string is a key of [Object.prototype].  The
    test of the fourth case is [!isNaN(bit)]: every string that [Number]
    reads as a number is converted with [BigInt] or [Number], whether or
    not it consists of digits only; a string of digits is among them and
    is read as its decimal value.  Any other string that is not a key of
    [Object.prototype] yields the entry of the registry under that name,
    and [undefined] when there is none. *)
Theorem resolve_cases (C : class) (h : heap) :
  (forall bit, plain bit = true ->
               resolve C h bit = resolve_as_specified C h bit) /\
  (forall s, isNaN s = false ->
             resolve C h (VString s) =
             match DefaultBit C with
             | Big _ =>
                 match StringToBigInt s with
                 | Some z => Ok (Big z)
                 | None => Throw SyntaxError
                 end
             | _ => Ok (Num (StringToNumber s))
             end) /\
  (forall s, only_digits s = true ->
             isNaN s = false /\
             StringToBigInt s = Some (decimal_value s) /\
             StringToNumber s = round_int (decimal_value s)) /\
  (forall s, isNaN s = true -> is_inherited s = false ->
             resolve C h (VString s) =
             match own s (Flags C) with
             | Some v => Ok v
             | None => Ok Undefined
             end).
Proof.
  split; [| split; [| split]].
  - intros bit. apply resolve_plain.
  - intros s. apply resolve_numeric.
  - apply only_digits_numeric.
  - intros s Hs Hi. rewrite (resolve_name _ _ _ Hs). unfold get.
    rewrite Hi. now destruct (own s (Flags C)).
Qed.

(** ** Resolution and the store *)

Lemma resolve_agree (C : class) (h h' : heap) (n : nat) (v : value) :
  agree n h h' -> closed n v = true -> resolve C h v = resolve C h' v.
Proof.
  intros Hag.
  induction v as [| x | z | s | b | l | elems IH |] using value_ind';
    intros Hc; try reflexivity.
  - rewrite !resolve_instance. simpl in Hc. apply Nat.ltb_lt in Hc.
    specialize (Hag l Hc).
    destruct (nth_error h l), (nth_error h' l); simpl in Hag; congruence.
  - rewrite !resolve_array. simpl in Hc.
    now rewrite (map_ext_pred (closed n) _ _ elems IH Hc).
Qed.

Lemma closed_inject (p : prim) (n : nat) : closed n (inject p) = true.
Proof. now destruct p. Qed.

Lemma resolve_inject_any (C : class) (h h' : heap) (p : prim) :
  resolve C h (inject p) = resolve C h' (inject p).
Proof.
  apply (resolve_agree C h h' 0); [| apply closed_inject].
  intros l Hl. lia.
Qed.

Lemma agree_new (h : heap) (x : object) :
  agree (List.length h) h (h ++ [x])%list.
Proof. intros l Hl. now rewrite nth_error_old. Qed.

Lemma agree_set_nth (n : nat) (h : heap) (i : nat) (o x : object) :
  nth_error h i = Some o -> bitfield x = bitfield o ->
  agree n h (set_nth i x h).
Proof.
  intros Ho Hb l _. destruct (Nat.eq_dec i l) as [<- | Hne].
  - rewrite (nth_error_set_nth_eq h i x o Ho), Ho. simpl. congruence.
  - now rewrite nth_error_set_nth_ne.
Qed.

Lemma agree_trans (n : nat) (h1 h2 h3 : heap) :
  agree n h1 h2 -> agree n h2 h3 -> agree n h1 h3.
Proof. intros H12 H23 l Hl. now rewrite (H12 l Hl), (H23 l Hl). Qed.

Lemma nth_error_lt {A : Type} (l : list A) (i : nat) (x : A) :
  nth_error l i = Some x -> (i < List.length l)%nat.
Proof. intros H. apply nth_error_Some. congruence. Qed.

(** ** Operators on well-formed values *)

Lemma well_formed_of_bits_num (C : class) (d : number) (z : Z) :
  DefaultBit C = Num d -> 0 <= z < 2 ^ 31 ->
  well_formed C (Num (of_Z z)) = true.
Proof.
  intros E Hz. unfold well_formed, int32_valued. rewrite E.
  rewrite ToInt32_of_Z, wrap32_small by lia.
  apply andb_true_iff. split.
  - apply Qeq_bool_refl.
  - apply Z.leb_le. lia.
Qed.

Lemma bitor_well_formed (C : class) (a b : prim) :
  well_formed C a = true -> well_formed C b = true ->
  exists x, bitor a b = Ok x /\ well_formed C x = true /\
            bits_of x = Z.lor (bits_of a) (bits_of b).
Proof.
  intros Ha Hb.
  destruct (bitor_bits C a b (well_formed_same_kind _ _ Ha)
              (well_formed_same_kind _ _ Hb)) as (x & Hx & _ & Bx).
  exists x. split; [exact Hx |]. split; [| exact Bx].
  destruct (DefaultBit C) as [| d | d | kd] eqn:Ed.
  - unfold well_formed in Ha. rewrite Ed in Ha. discriminate.
  - destruct a as [| na | za | kna];
      try (unfold well_formed in Ha; rewrite Ed in Ha; discriminate).
    destruct b as [| nb | zb | knb];
      try (unfold well_formed in Hb; rewrite Ed in Hb; discriminate).
    destruct (well_formed_uint31 C d na Ed Ha) as [_ Hna].
    destruct (well_formed_uint31 C d nb Ed Hb) as [_ Hnb].
    cbn [bitor int32] in Hx. injection Hx as <-.
    pose proof (lor_uint31 _ _ Hna Hnb) as Hl.
    rewrite wrap32_small by lia.
    now apply (well_formed_of_bits_num C d).
  - unfold well_formed in Ha, Hb |- *. rewrite Ed in Ha, Hb |- *.
    destruct a as [| na | za | kna]; try discriminate.
    destruct b as [| nb | zb | knb]; try discriminate.
    cbn [bitor] in Hx. injection Hx as <-.
    apply Z.leb_le. apply Z.leb_le in Ha, Hb. now apply Z.lor_nonneg.
  - unfold well_formed in Ha. rewrite Ed in Ha. discriminate.
Qed.

Lemma well_formed_zero (C : class) :
  engine C -> well_formed C (DefaultBit C) = true.
Proof. intros [E | E]; red in E; unfold well_formed; rewrite E; reflexivity. Qed.

Lemma resolve_inject_well_formed (C : class) (h : heap) (x : prim) :
  engine C -> well_formed C x = true ->
  inject x <> VUndefined /\ resolve C h (inject x) = Ok x.
Proof.
  intros [E | E] Hx; red in E; unfold well_formed in Hx; rewrite E in Hx;
    destruct x as [| n | z | kn]; try discriminate;
    (split; [discriminate |]); simpl; rewrite E; simpl.
  - apply andb_true_iff in Hx as [Hv Hs].
    unfold int32_valued in Hv. destruct n as [| s | q]; try discriminate.
    simpl in Hv. apply Qeq_bool_iff in Hv. apply Z.leb_le in Hs.
    assert (Hq : number_ge (Finite q) (of_Z 0) = true).
    { cbn [number_ge of_Z]. apply Qle_bool_iff. rewrite <- Hv.
      rewrite <- Zle_Qle. exact Hs. }
    now rewrite Hq.
  - now rewrite Hx.
Qed.


(** ** Enumeration *)

Lemma iterate_filter (PFB : list (string * Z)) (h : heap) (l : loc)
  (hp : option bool) (test : string -> bool) (names : list string) :
  (forall n, In n names -> isNaN n = true ->
             has PFB h l (VString n) hp = Ok (test n)) ->
  iterate PFB h l hp names = Ok (filter (fun n => isNaN n && test n) names).
Proof.
  induction names as [| a names IH]; intros H; simpl; [reflexivity |].
  rewrite IH by (intros n Hn; apply H; now right).
  destruct (isNaN a) eqn:Ha; simpl; [| reflexivity].
  rewrite (H a (or_introl eq_refl) Ha). simpl. now destruct (test a).
Qed.




(** ** Freezing and copy on write *)

Lemma land_lor_absorb (b r : Z) : Z.land (Z.lor b r) r = r.
Proof.
  apply land_eq_iff_bits. intros i Hi.
  destruct (Z.ltb_spec i 0) as [Hneg | Hpos].
  - now rewrite Z.testbit_neg_r in Hi by lia.
  - rewrite Z.lor_spec, Hi. apply orb_true_r.
Qed.

Lemma BitField_has_agree (h h' : heap) (l : loc) (o o' : object)
  (bit : value) :
  nth_error h l = Some o -> nth_error h' l = Some o' ->
  class_of o' = class_of o -> bitfield o' = bitfield o ->
  resolve (class_of o) h' bit = resolve (class_of o) h bit ->
  BitField_has h' l bit = BitField_has h l bit.
Proof.
  intros Ho Ho' Hc Hb Hr. unfold BitField_has, this_object.
  rewrite Ho, Ho'. cbn [bind]. now rewrite Hc, Hb, Hr.
Qed.

Lemma has_agree (PFB : list (string * Z)) (h h' : heap) (l : loc)
  (o o' : object) (bit : value) (hp : option bool) :
  nth_error h l = Some o -> nth_error h' l = Some o' ->
  class_of o' = class_of o -> bitfield o' = bitfield o ->
  resolve (class_of o) h' bit = resolve (class_of o) h bit ->
  has PFB h' l bit hp = has PFB h l bit hp.
Proof.
  intros Ho Ho' Hc Hb Hr.
  assert (Hbit : BitField_has h' l bit = BitField_has h l bit)
    by now apply (BitField_has_agree h h' l o o').
  assert (Hadm : BitField_has h' l (Administrator PFB) =
                 BitField_has h l (Administrator PFB)).
  { apply (BitField_has_agree h h' l o o'); auto.
    apply resolve_inject_any. }
  unfold has, this_object, PermissionsBitField_has.
  rewrite Ho, Ho'. cbn [bind]. now rewrite Hc, Hbit, Hadm.
Qed.

Lemma has_of_generic (PFB : list (string * Z)) (h : heap) (l : loc)
  (o : object) (bit : value) (hp : option bool) :
  nth_error h l = Some o ->
  administrator_ok PFB (class_of o) ->
  (exists z, bitfield o = Big z) \/ permissions (class_of o) = false ->
  BitField_has h l bit = Ok true ->
  has PFB h l bit hp = Ok true.
Proof.
  intros Ho Hadm Hkind Hbit. unfold has, this_object. rewrite Ho.
  cbn [bind]. destruct (permissions (class_of o)) eqn:Hp; [| exact Hbit].
  destruct Hkind as [[z Hz] | Hf]; [| discriminate].
  destruct (Hadm Hp) as (E & a & Ha & Hget).
  unfold PermissionsBitField_has.
  destruct (checkAdmin_of hp); [| exact Hbit].
  assert (Hres : BitField_has h l (Administrator PFB) =
                 Ok (Z.land z a =? a)).
  { unfold BitField_has, this_object, Administrator.
    rewrite Ho, Hget. cbn [bind inject]. simpl resolve.
    red in E. rewrite E. simpl.
    destruct (Z.leb_spec 0 a) as [_ | Hneg]; [| lia].
    simpl. now rewrite Hz. }
  rewrite Hres. cbn [bind]. now destruct (Z.land z a =? a).
Qed.

(** C4.  [freeze] sets the frozen mark of the receiver in place and
    returns the receiver, allocating nothing.  [add] on the frozen
    receiver then allocates a new instance, distinct from the receiver,
    leaves the receiver's bitfield and the answer of its [has] as they
    were, and the new instance has the added flag. *)
Theorem frozen_add_copies (PFB : list (string * Z)) (h : heap) (B : loc)
  (o : object) (f : value) (r : prim) (hp : option bool) :
  nth_error h B = Some o ->
  engine (class_of o) ->
  administrator_ok PFB (class_of o) ->
  well_formed (class_of o) (bitfield o) = true ->
  resolve (class_of o) h f = Ok r ->
  well_formed (class_of o) r = true ->
  closed (List.length h) f = true ->
  exists h1 C h2,
    freeze h B = Ok (B, h1) /\
    List.length h1 = List.length h /\
    (forall l, l <> B -> nth_error h1 l = nth_error h l) /\
    nth_error h1 B = Some {| class_of := class_of o; bitfield := bitfield o;
                             frozen := true |} /\
    add h1 B [f] = Ok (C, h2) /\
    C <> B /\
    nth_error h2 B = nth_error h1 B /\
    has PFB h2 B f hp = has PFB h B f hp /\
    has PFB h2 C f hp = Ok true.
Proof.
  intros Ho HE Hadm Wb Hr Wr Hcl.
  pose proof (nth_error_lt _ _ _ Ho) as Hlt.
  set (fB := {| class_of := class_of o; bitfield := bitfield o;
                frozen := true |}).
  set (h1 := set_nth B fB h).
  assert (H1 : nth_error h1 B = Some fB)
    by (apply (nth_error_set_nth_eq h B fB o Ho)).
  assert (Hlen : List.length h1 = List.length h) by apply length_set_nth.
  assert (Hag1 : agree (List.length h) h h1)
    by (apply (agree_set_nth _ h B o fB Ho); reflexivity).
  assert (Hr1 : resolve (class_of o) h1 f = Ok r)
    by (rewrite <- (resolve_agree _ h h1 _ f Hag1 Hcl); exact Hr).
  destruct (bitor_well_formed _ _ r (well_formed_zero _ HE) Wr)
    as (tr & Htr & Wtr & Btr).
  destruct (bitor_well_formed _ _ tr Wb Wtr) as (x & Hx & Wx & Bx).
  destruct (resolve_inject_well_formed _ h1 x HE Wx) as [Hnu Hres].
  set (nw := {| class_of := class_of o; bitfield := x; frozen := false |}).
  exists h1, (List.length h1), (h1 ++ [nw])%list.
  assert (Hag2 : agree (List.length h) h (h1 ++ [nw])%list).
  { apply (agree_trans _ h h1); [exact Hag1 |].
    rewrite <- Hlen. apply agree_new. }
  assert (Hr2 : resolve (class_of o) (h1 ++ [nw])%list f = Ok r)
    by (rewrite <- (resolve_agree _ h _ _ f Hag2 Hcl); exact Hr).
  assert (H2 : nth_error (h1 ++ [nw])%list B = Some fB)
    by (rewrite nth_error_old by lia; exact H1).
  repeat split.
  - unfold freeze, this_object. now rewrite Ho.
  - exact Hlen.
  - intros l Hl. now apply nth_error_set_nth_ne.
  - exact H1.
  - unfold add, this_object. rewrite H1.
    cbn [bind class_of bitfield frozen fB total_of].
    rewrite Hr1. cbn [bind]. rewrite Htr. cbn [bind]. rewrite Hx.
    cbn [bind]. now apply construct_new.
  - lia.
  - now rewrite H2, H1.
  - apply (has_agree PFB h _ B o fB); auto. now rewrite Hr2, Hr.
  - apply (has_of_generic PFB _ _ nw); try apply nth_error_new; auto.
    + destruct (permissions (class_of o)) eqn:Hp; [left | now right].
      destruct (Hadm Hp) as (E & _). red in E.
      unfold well_formed in Wx. cbn [class_of nw] in *. rewrite E in Wx.
      destruct x as [| n | z | kn]; try discriminate. now exists z.
    + rewrite (BitField_has_mask _ _ nw f r (nth_error_new h1 nw)
                 (well_formed_same_kind _ _ Wx) Hr2 Wr).
      cbn [bitfield nw]. rewrite Bx, Btr.
      destruct (engine_zero _ HE) as (_ & -> & _).
      now rewrite Z.lor_0_l, land_lor_absorb, Z.eqb_refl.
Qed.

(** ** The administrator override *)

Lemma keys_permission_flags (PFB : list (string * Z)) :
  keys (permission_flags PFB) = map fst PFB.
Proof. unfold keys, permission_flags. rewrite map_map. reflexivity. Qed.

Lemma get_permission_flags (PFB : list (string * Z)) (n : string) (v : Z) :
  NoDup (map fst PFB) -> In (n, v) PFB ->
  get n (permission_flags PFB) = Big v.
Proof.
  intros Hnd Hin.
  assert (H : own n (permission_flags PFB) = Some (Big v)).
  { induction PFB as [| [k w] PFB IH]; simpl in *; [contradiction |].
    inversion Hnd as [| ? ? Hk Hnd']; subst.
    destruct Hin as [Heq | Hin].
    - injection Heq as -> ->. now rewrite String.eqb_refl.
    - destruct (String.eqb_spec k n) as [-> | Hne].
      + elim Hk. change n with (fst (n, v)). now apply in_map.
      + now apply IH. }
  unfold get. now rewrite H.
Qed.

Lemma filter_single {A : Type} (f : A -> bool) (x : A) (l : list A) :
  NoDup l -> In x l -> f x = true ->
  (forall y, In y l -> y <> x -> f y = false) ->
  filter f l = [x].
Proof.
  induction l as [| y l IH]; simpl; [contradiction |].
  intros Hnd Hin Hx Hother. inversion Hnd as [| ? ? Hy Hnd']; subst.
  assert (Hnone : forall l', (forall z, In z l' -> f z = false) ->
                             filter f l' = []).
  { induction l' as [| z l' IH']; simpl; intros H; [reflexivity |].
    rewrite (H z (or_introl eq_refl)). apply IH'. intros; apply H; now right. }
  destruct Hin as [-> | Hin].
  - rewrite Hx. f_equal. apply Hnone. intros z Hz.
    apply Hother; [now right |]. intros ->. contradiction.
  - rewrite (Hother y (or_introl eq_refl)) by (intros ->; contradiction).
    apply IH; auto.
Qed.

Lemma has_administrator (PFB : list (string * Z)) (h : heap) (this : loc)
  (o : object) (a : Z) :
  NoDup (map fst PFB) -> In ("Administrator", a) PFB -> 0 <= a ->
  nth_error h this = Some o ->
  class_of o = PermissionsBitField PFB -> bitfield o = Big a ->
  BitField_has h this (Administrator PFB) = Ok true.
Proof.
  intros Hnd Hin Ha Ho Hc Hb.
  unfold BitField_has, this_object, Administrator.
  rewrite Ho, (get_permission_flags PFB _ a Hnd Hin).
  cbn [bind inject]. rewrite Hc, Hb. simpl.
  destruct (Z.leb_spec 0 a) as [_ | Hneg]; [| lia].
  simpl. now rewrite Z.land_diag, Z.eqb_refl.
Qed.

(** C1.  An instance of [PermissionsBitField] whose bitfield is exactly
    the administrator flag answers true to [has] for every argument,
    returns the empty list from [missing] for every argument, and lists
    the administrator flag alone in [toArray]. *)
Theorem administrator_asymmetry (PFB : list (string * Z)) (h : heap)
  (this : loc) (o : object) (a : Z) :
  NoDup (map fst PFB) ->
  In ("Administrator", a) PFB ->
  0 <= a ->
  (forall n v, In (n, v) PFB -> n <> "Administrator" -> Z.land a v <> v) ->
  nth_error h this = Some o ->
  class_of o = PermissionsBitField PFB ->
  bitfield o = Big a ->
  (forall f, has PFB h this f None = Ok true) /\
  (forall bits, missing PFB h this bits None = Ok ([], h)) /\
  (forall hp, toArray PFB h this hp = Ok ["Administrator"]).
Proof.
  intros Hnd Hin Ha Hother Ho Hc Hb.
  pose proof (has_administrator PFB h this o a Hnd Hin Ha Ho Hc Hb) as Hadm.
  assert (Hhas : forall f, has PFB h this f None = Ok true).
  { intros f. unfold has, this_object. rewrite Ho. cbn [bind]. rewrite Hc.
    unfold PermissionsBitField_has. simpl. now rewrite Hadm. }
  split; [exact Hhas |]. split.
  - intros bits. unfold missing, this_object. rewrite Ho. cbn [bind].
    rewrite Hc.
    unfold PermissionsBitField_missing. simpl. now rewrite Hhas.
  - intros hp. unfold toArray, this_object. rewrite Ho. cbn [bind].
    rewrite Hc.
    simpl permissions. cbv iota.
    unfold BitField_toArray, iterator, this_object. rewrite Ho.
    cbn [bind]. rewrite Hc. simpl Flags.
    rewrite (iterate_filter PFB h this (Some false)
               (fun n => Z.land a (bits_of (get n (permission_flags PFB)))
                         =? bits_of (get n (permission_flags PFB)))).
    + f_equal. rewrite keys_permission_flags.
      apply filter_single; auto.
      * change "Administrator" with (fst ("Administrator", a)).
        now apply in_map.
      * rewrite (get_permission_flags PFB _ a Hnd Hin). cbn [bits_of].
        now rewrite Z.land_diag, Z.eqb_refl.
      * intros y Hy Hne. apply in_map_iff in Hy as ([k v] & Hk & Hkv).
        simpl in Hk. subst k.
        rewrite (get_permission_flags PFB _ v Hnd Hkv). cbn [bits_of].
        rewrite (proj2 (Z.eqb_neq _ _) (Hother y v Hkv Hne)).
        apply andb_false_r.
    + intros n Hn Hnan. rewrite keys_permission_flags in Hn.
      apply in_map_iff in Hn as ([k v] & Hk & Hkv). simpl in Hk. subst k.
      unfold has, this_object. rewrite Ho. cbn [bind]. rewrite Hc.
      simpl permissions. cbv iota.
      unfold PermissionsBitField_has. simpl checkAdmin_of. cbv iota.
      unfold BitField_has, this_object. rewrite Ho. cbn [bind].
      rewrite Hc, Hb.
      rewrite (resolve_name _ h n Hnan). simpl Flags.
      now rewrite (get_permission_flags PFB _ v Hnd Hkv).
Qed.

(** * The scenario, evaluated *)

Lemma scenario_NoDup : NoDup (map fst scenario).
Proof. repeat constructor; simpl; intuition discriminate. Qed.

Lemma scenario_other_flags (n : string) (v : Z) :
  In (n, v) scenario -> n <> "Administrator" -> Z.land 8 v <> v.
Proof.
  intros [H | [H | [H | []]]] Hne; injection H as <- <-;
    try discriminate. now elim Hne.
Qed.

Lemma Permissions_administrator_ok : administrator_ok scenario Permissions.
Proof.
  intros _. split; [reflexivity |]. exists 8. split; [lia | reflexivity].
Qed.

Lemma Permissions_wf_registry : wf_registry Permissions.
Proof. repeat constructor. Qed.

Lemma Toggles_wf_registry : wf_registry Toggles.
Proof. repeat constructor. Qed.

Lemma administrator_asymmetry_witness :
  NoDup (map fst scenario) /\
  In ("Administrator", 8) scenario /\
  0 <= 8 /\
  has scenario (store_of Permissions (Big 8)) 0%nat (VString "SendMessages") None
  = Ok true /\
  missing scenario (store_of Permissions (Big 8)) 0%nat
    (VArray [VString "ViewChannel"; VString "SendMessages"]) None
  = Ok ([], store_of Permissions (Big 8)) /\
  toArray scenario (store_of Permissions (Big 8)) 0%nat None
  = Ok ["Administrator"].
Proof.
  assert (Hin : In ("Administrator", 8) scenario) by (simpl; tauto).
  assert (H0 : 0 <= 8) by lia.
  destruct (administrator_asymmetry scenario (store_of Permissions (Big 8))
              0%nat _ 8 scenario_NoDup Hin H0 scenario_other_flags
              eq_refl eq_refl eq_refl) as (Hh & Hm & Ht).
  repeat split; auto. apply scenario_NoDup.
Defined.

(** The string ["-5"] is not a string of digits and not a name of the
    registry: the code resolves it to [-5n], the specified algorithm
    does not resolve it. *)
Lemma resolve_signed_string :
  resolve Permissions [] (VString "-5") = Ok (Big (-5)) /\
  resolve_as_specified Permissions [] (VString "-5") = Ok Undefined.
Proof. split; reflexivity. Qed.

Lemma resolve_cases_witness :
  plain (VArray [VString "8"; VString "ViewChannel"]) = true /\
  resolve Permissions [] (VArray [VString "8"; VString "ViewChannel"]) =
  resolve_as_specified Permissions []
    (VArray [VString "8"; VString "ViewChannel"]) /\
  isNaN "0x10" = false /\
  resolve Permissions [] (VString "0x10") = Ok (Big 16) /\
  only_digits "8" = true /\
  StringToBigInt "8" = Some 8.
Proof.
  destruct (resolve_cases Permissions []) as (Hplain & Hnum & Hdig & _).
  split; [reflexivity |].
  split; [apply Hplain; reflexivity |].
  split; [reflexivity |].
  split; [exact (Hnum "0x10" eq_refl) |].
  split; [reflexivity |].
  exact (proj1 (proj2 (Hdig "8" eq_refl))).
Defined.

(** In the permission class an unknown name resolves to [undefined] and
    [add] and [remove] then throw a TypeError instead of completing. *)
Lemma unknown_flag_throws :
  resolve Permissions (store_of Permissions (Big 1024)) (VString "Bogus")
  = Ok Undefined /\
  add (store_of Permissions (Big 1024)) 0%nat [VString "Bogus"]
  = Throw TypeError /\
  remove (store_of Permissions (Big 1024)) 0%nat [VString "Bogus"]
  = Throw TypeError.
Proof. repeat split; reflexivity. Qed.

Lemma unresolvable_in_fold_witness :
  nth_error (store_of Toggles (Num (of_Z 1))) 0%nat
  = Some {| class_of := Toggles; bitfield := Num (of_Z 1); frozen := false |} /\
  resolve Toggles (store_of Toggles (Num (of_Z 1))) (VString "constructor")
  = Ok (Inherited "constructor") /\
  numeric (Inherited "constructor") = false /\
  number_engine Toggles /\
  add (store_of Toggles (Num (of_Z 1))) 0%nat
      ([VString "Write"] ++ VString "constructor" :: [])
  = add (store_of Toggles (Num (of_Z 1))) 0%nat ([VString "Write"] ++ []) /\
  resolve Permissions (store_of Permissions (Big 1024)) (VString "Bogus")
  = Ok Undefined /\
  numeric Undefined = false /\
  bigint_engine Permissions /\
  (forall v, In v [VString "ViewChannel"] ->
             exists p, resolve Permissions (store_of Permissions (Big 1024)) v
                       = Ok p) /\
  add (store_of Permissions (Big 1024)) 0%nat
      ([VString "ViewChannel"] ++ VString "Bogus" :: []) = Throw TypeError.
Proof.
  assert (Hall : forall v, In v [VString "ViewChannel"] ->
                 exists p, resolve Permissions
                             (store_of Permissions (Big 1024)) v = Ok p).
  { intros v [<- | []]. eexists. reflexivity. }
  split; [reflexivity |]. split; [reflexivity |]. split; [reflexivity |].
  split; [reflexivity |]. split.
  - exact (proj1 (proj1 (proj2
             (unresolvable_in_fold (store_of Toggles (Num (of_Z 1))) 0%nat _
                (VString "constructor") (Inherited "constructor")
                [VString "Write"] [] eq_refl eq_refl eq_refl))
             eq_refl)).
  - split; [reflexivity |]. split; [reflexivity |]. split; [reflexivity |].
    split; [exact Hall |].
    exact (proj1 (proj1 (proj2 (proj2 (proj2 (proj2 (proj2
             (unresolvable_in_fold (store_of Permissions (Big 1024)) 0%nat _
                (VString "Bogus") Undefined [VString "ViewChannel"] []
                eq_refl eq_refl eq_refl))
             eq_refl)))) Hall)).
Defined.

Lemma frozen_add_copies_witness :
  engine Permissions /\
  administrator_ok scenario Permissions /\
  well_formed Permissions (Big 1024) = true /\
  resolve Permissions (store_of Permissions (Big 1024))
    (VString "SendMessages") = Ok (Big 2048) /\
  closed 1 (VString "SendMessages") = true /\
  exists h1 C h2,
    freeze (store_of Permissions (Big 1024)) 0%nat = Ok (0%nat, h1) /\
    add h1 0%nat [VString "SendMessages"] = Ok (C, h2) /\
    C <> 0%nat /\
    has scenario h2 C (VString "SendMessages") None = Ok true.
Proof.
  assert (HE : engine Permissions) by (right; reflexivity).
  split; [exact HE |]. split; [exact Permissions_administrator_ok |].
  split; [reflexivity |]. split; [reflexivity |]. split; [reflexivity |].
  destruct (frozen_add_copies scenario (store_of Permissions (Big 1024)) 0%nat _
              (VString "SendMessages") (Big 2048) None eq_refl HE
              Permissions_administrator_ok eq_refl eq_refl eq_refl eq_refl)
    as (h1 & C & h2 & Hf & _ & _ & _ & Hadd & Hne & _ & _ & Hhas).
  exists h1, C, h2. repeat split; assumption.
Defined.

Lemma resolve_union_witness :
  engine Permissions /\
  resolve Permissions [] (VString "ViewChannel") = Ok (Big 1024) /\
  resolve Permissions [] (VBigInt 2048) = Ok (Big 2048) /\
  resolve Permissions [] (VString "8") = Ok (Big 8) /\
  resolve Permissions []
    (VArray [VString "ViewChannel"; VBigInt 2048; VString "8"])
  = Ok (Big 3080).
Proof.
  assert (HE : engine Permissions) by (right; reflexivity).
  split; [exact HE |].
  split; [reflexivity |]. split; [reflexivity |]. split; [reflexivity |].
  exact (proj1 (resolve_union Permissions [] (VString "ViewChannel")
                  (VBigInt 2048) (VString "8") (Big 1024) (Big 2048) (Big 8)
                  HE eq_refl eq_refl eq_refl eq_refl eq_refl eq_refl)).
Defined.


Lemma has_iff_mask_witness :
  resolve Permissions (store_of Permissions (Big 1024))
    (VString "SendMessages") = Ok (Big 2048) /\
  BitField_has (store_of Permissions (Big 1024)) 0%nat (VString "SendMessages")
  = Ok false /\
  engine Permissions /\ wf_registry Permissions /\
  In "ViewChannel" (keys (Flags Permissions)) /\
  (exists l h', construct Permissions [] (VString "ViewChannel") = Ok (l, h') /\
                BitField_has h' l (VString "ViewChannel") = Ok true) /\
  (exists l h', construct Permissions [] (inject (DefaultBit Permissions))
                = Ok (l, h') /\
                BitField_has h' l (VString "ViewChannel") = Ok false).
Proof.
  assert (HE : engine Permissions) by (right; reflexivity).
  assert (Hin : In "ViewChannel" (keys (Flags Permissions)))
    by (simpl; tauto).
  destruct has_iff_mask as [Hmask Hflag].
  split; [reflexivity |]. split.
  - exact (proj1 (Hmask (store_of Permissions (Big 1024)) 0%nat _
                    (VString "SendMessages") (Big 2048)
                    eq_refl eq_refl eq_refl eq_refl)).
  - split; [exact HE |]. split; [exact Permissions_wf_registry |].
    split; [exact Hin |].
    destruct (Hflag Permissions [] "ViewChannel" HE Permissions_wf_registry
                Hin) as [Hset Hzero].
    split.
    + exact (Hset (VString "ViewChannel") (or_introl eq_refl)).
    + apply Hzero. discriminate.
Defined.

(** In the permission class a bitfield of 8 is serialized as the string
    ["8"], although a Number holds 8 exactly. *)
Lemma toJSON_small_bigint :
  toJSON (store_of Permissions (Big 8)) 0%nat = Ok (VString "8") /\
  fits_native 8 = true /\
  toJSON_as_specified (store_of Permissions (Big 8)) 0%nat
  = Ok (VNumber (of_Z 8)).
Proof. repeat split; reflexivity. Qed.

Lemma toJSON_scalar_witness :
  nth_error (store_of Toggles (Num (of_Z 5))) 0%nat
  = Some {| class_of := Toggles; bitfield := Num (of_Z 5); frozen := false |} /\
  toJSON (store_of Toggles (Num (of_Z 5))) 0%nat = Ok (VNumber (of_Z 5)) /\
  toJSON (store_of Toggles (Num (of_Z 5))) 0%nat
  = toJSON_as_specified (store_of Toggles (Num (of_Z 5))) 0%nat /\
  nth_error (store_of Permissions (Big 1099511627776)) 0%nat
  = Some {| class_of := Permissions; bitfield := Big 1099511627776;
            frozen := false |} /\
  toJSON (store_of Permissions (Big 1099511627776)) 0%nat
  = Ok (VString "1099511627776") /\
  toJSON (store_of Permissions (Big 1099511627776)) 0%nat
  <> Ok (VNumber (of_Z 1099511627776)).
Proof.
  split; [reflexivity |]. split; [| split; [| split; [reflexivity | split]]].
  - exact (proj1 (toJSON_scalar (store_of Toggles (Num (of_Z 5))) 0%nat _
                    eq_refl) (of_Z 5) eq_refl).
  - apply (proj2 (proj2 (toJSON_scalar (store_of Toggles (Num (of_Z 5)))
                           0%nat _ eq_refl))).
    intros z H. discriminate H.
  - exact (proj1 (proj1 (proj2 (toJSON_scalar
                           (store_of Permissions (Big 1099511627776)) 0%nat _
                           eq_refl)) 1099511627776 eq_refl)).
  - exact (proj1 (proj2 (proj2 (proj2 (proj2
             (proj1 (proj2 (toJSON_scalar
                           (store_of Permissions (Big 1099511627776)) 0%nat _
                           eq_refl)) 1099511627776 eq_refl)))))).
Defined.

Lemma toJSON_construct_witness :
  accepted Permissions (Big 1099511627776) = true /\
  exists j,
    toJSON (store_of Permissions (Big 1099511627776)) 0%nat = Ok j /\
    construct Permissions (store_of Permissions (Big 1099511627776)) j
    = Ok (1%nat,
          [{| class_of := Permissions; bitfield := Big 1099511627776;
              frozen := false |};
           {| class_of := Permissions; bitfield := Big 1099511627776;
              frozen := false |}]).
Proof.
  split; [reflexivity |].
  exact (toJSON_construct (store_of Permissions (Big 1099511627776)) 0%nat _
           eq_refl eq_refl).
Defined.

Lemma resolve_below_zero_witness :
  number_engine Toggles /\
  number_ge (of_Z (-1)) (of_Z 0) = false /\
  resolve Toggles [] (VNumber (of_Z (-1))) = Ok Undefined /\
  bigint_engine Permissions /\
  resolve Permissions [] (VBigInt (-1)) = Ok Undefined.
Proof.
  split; [reflexivity |]. split; [reflexivity |]. split.
  - exact (proj1 (resolve_below_zero Toggles []) eq_refl (of_Z (-1)) eq_refl).
  - split; [reflexivity |].
    apply (proj2 (resolve_below_zero Permissions []) eq_refl). lia.
Defined.

(** * Further properties of the classes *)

(** ** Unions of resolved values *)

Lemma fold_lor_testbit (zs : list Z) :
  forall z0 i,
    Z.testbit (fold_left Z.lor zs z0) i =
    Z.testbit z0 i || existsb (fun z => Z.testbit z i) zs.
Proof.
  induction zs as [| z zs IH]; intros z0 i; simpl.
  - now rewrite orb_false_r.
  - now rewrite IH, Z.lor_spec, orb_assoc.
Qed.

Lemma union_bits_same_elements (zs zs' : list Z) :
  (forall z, In z zs <-> In z zs') -> union_bits zs = union_bits zs'.
Proof.
  intros H. apply Z.bits_inj'. intros i _. unfold union_bits.
  rewrite !fold_lor_testbit. f_equal. apply eq_true_iff_eq.
  rewrite !existsb_exists.
  split; intros (z & Hz & Hb); exists z; split; auto; now apply H.
Qed.

Lemma bits_of_of_bits (C : class) (z : Z) :
  in_width C z -> bits_of (of_bits C z) = z.
Proof.
  unfold in_width, of_bits.
  destruct (DefaultBit C); intros Hz; cbn [bits_of int32];
    try reflexivity; rewrite ToInt32_of_Z; now apply wrap32_small.
Qed.

Lemma of_bits_kind (C : class) (z : Z) :
  engine C -> same_kind C (of_bits C z) = true.
Proof.
  intros [E | E]; red in E; unfold same_kind, of_bits; now rewrite E.
Qed.

Lemma engine_default (C : class) :
  engine C -> DefaultBit C = of_bits C 0 /\ in_width C 0.
Proof.
  intros [E | E]; red in E; unfold of_bits, in_width; rewrite E;
    split; try reflexivity; lia.
Qed.

Lemma bitor_same_kind (C : class) (a b : prim) :
  same_kind C a = true -> same_kind C b = true ->
  bitor a b = Ok (of_bits C (Z.lor (bits_of a) (bits_of b))) /\
  in_width C (Z.lor (bits_of a) (bits_of b)).
Proof.
  unfold same_kind, of_bits, in_width.
  destruct (DefaultBit C) as [| d | d | kd]; try discriminate;
    destruct a as [| na | za | kna]; try discriminate;
    destruct b as [| nb | zb | knb]; try discriminate; intros _ _.
  - cbn [bitor bits_of int32].
    pose proof (lor_int32 _ _ (ToInt32_range na) (ToInt32_range nb)) as Hl.
    now rewrite wrap32_small.
  - now split.
Qed.

Lemma fold_or_union (C : class) (rs : list prim) :
  engine C ->
  Forall (fun r => same_kind C r = true) rs ->
  forall z, in_width C z ->
    fold_left or_step rs (Ok (of_bits C z)) =
    Ok (of_bits C (fold_left Z.lor (map bits_of rs) z)) /\
    in_width C (fold_left Z.lor (map bits_of rs) z).
Proof.
  intros HE. induction 1 as [| r rs Hr _ IH]; intros z Hz; simpl.
  - now split.
  - destruct (bitor_same_kind C _ r (of_bits_kind C z HE) Hr) as [Hor Hw].
    rewrite (bits_of_of_bits C z Hz) in Hor, Hw.
    change (or_step (Ok (of_bits C z)) r) with (bitor (of_bits C z) r).
    rewrite Hor. now apply IH.
Qed.

Lemma resolve_all_sequence (C : class) (h : heap) (l : list value)
  (rs : list prim) :
  resolve_all C h l rs ->
  sequence (map (resolve C h) l) = Ok rs /\
  Forall (fun r => same_kind C r = true) rs.
Proof.
  induction 1 as [| v r l rs [Hv Hk] _ [IHs IHk]]; simpl.
  - now split.
  - rewrite Hv, IHs. split; [reflexivity | now constructor].
Qed.

Lemma total_of_fold (C : class) (h : heap) (l : list value) (rs : list prim) :
  resolve_all C h l rs ->
  forall t, total_of C h t l = fold_left or_step rs (Ok t).
Proof.
  induction 1 as [| v r l rs [Hv Hk] _ IH]; intros t; simpl.
  - reflexivity.
  - rewrite Hv. cbn [bind]. destruct (bitor t r) as [t' | e]; cbn [bind].
    + apply IH.
    + now rewrite fold_or_Throw.
Qed.

Lemma total_of_union (C : class) (h : heap) (l : list value) (rs : list prim) :
  engine C -> resolve_all C h l rs ->
  total_of C h (DefaultBit C) l =
  Ok (of_bits C (union_bits (map bits_of rs))) /\
  in_width C (union_bits (map bits_of rs)).
Proof.
  intros HE Hall. rewrite (total_of_fold C h l rs Hall).
  destruct (engine_default C HE) as [HD H0].
  destruct (resolve_all_sequence C h l rs Hall) as [_ Hk].
  rewrite HD at 1. now apply fold_or_union.
Qed.

(** X1.  An array of any length whose elements resolve to values of the
    engine's kind resolves to the value whose binary digits are the union
    of the digits of its elements. *)
Theorem array_union (C : class) (h : heap) (l : list value) (rs : list prim) :
  engine C -> resolve_all C h l rs ->
  resolve C h (VArray l) = Ok (of_bits C (union_bits (map bits_of rs))).
Proof.
  intros HE Hall. rewrite resolve_array_fold.
  destruct (resolve_all_sequence C h l rs Hall) as [-> Hk]. cbn [bind].
  destruct (engine_default C HE) as [HD H0].
  rewrite HD at 1. now apply fold_or_union.
Qed.

Lemma array_union_width (C : class) (h : heap) (l : list value)
  (rs : list prim) :
  engine C -> resolve_all C h l rs ->
  resolve C h (VArray l) = Ok (of_bits C (union_bits (map bits_of rs))) /\
  in_width C (union_bits (map bits_of rs)).
Proof.
  intros HE Hall. rewrite resolve_array_fold.
  destruct (resolve_all_sequence C h l rs Hall) as [-> Hk]. cbn [bind].
  destruct (engine_default C HE) as [HD H0].
  rewrite HD at 1. now apply fold_or_union.
Qed.

(** X2.  Nesting does not matter: an array whose first element is itself
    an array resolves like the array with the inner elements spliced in. *)
Theorem array_flatten (C : class) (h : heap) (l1 l2 : list value)
  (rs1 rs2 : list prim) :
  engine C -> resolve_all C h l1 rs1 -> resolve_all C h l2 rs2 ->
  resolve C h (VArray (VArray l1 :: l2)) = resolve C h (VArray (l1 ++ l2)).
Proof.
  intros HE H1 H2.
  destruct (array_union_width C h l1 rs1 HE H1) as [Hin Hw].
  assert (Hnest : resolve_all C h (VArray l1 :: l2)
                    (of_bits C (union_bits (map bits_of rs1)) :: rs2)).
  { constructor; [| exact H2]. split; [exact Hin | now apply of_bits_kind]. }
  assert (Happ : resolve_all C h (l1 ++ l2) (rs1 ++ rs2))
    by now apply Forall2_app.
  rewrite (proj1 (array_union_width C h _ _ HE Hnest)).
  rewrite (proj1 (array_union_width C h _ _ HE Happ)).
  do 2 f_equal. cbn [map]. rewrite (bits_of_of_bits C _ Hw).
  unfold union_bits. cbn [fold_left].
  now rewrite Z.lor_0_l, map_app, fold_left_app.
Qed.

(** ** Adding and removing in place *)

Lemma land_int32 (a b : Z) :
  - 2 ^ 31 <= a < 2 ^ 31 -> - 2 ^ 31 <= b < 2 ^ 31 ->
  - 2 ^ 31 <= Z.land a b < 2 ^ 31.
Proof.
  intros Ha Hb.
  assert (H : - 2 ^ 31 <= Z.lor (Z.lnot a) (Z.lnot b) < 2 ^ 31)
    by (apply lor_int32; rewrite Z.lnot_eq_pred_opp; lia).
  rewrite <- (Z.lnot_involutive (Z.land a b)), Z.lnot_land.
  rewrite (Z.lnot_eq_pred_opp (Z.lor _ _)). lia.
Qed.

Lemma bitand_same_kind (C : class) (a b : prim) :
  same_kind C a = true -> same_kind C b = true ->
  bitand a b = Ok (of_bits C (Z.land (bits_of a) (bits_of b))) /\
  in_width C (Z.land (bits_of a) (bits_of b)).
Proof.
  unfold same_kind, of_bits, in_width.
  destruct (DefaultBit C) as [| d | d | kd]; try discriminate;
    destruct a as [| na | za | kna]; try discriminate;
    destruct b as [| nb | zb | knb]; try discriminate; intros _ _.
  - cbn [bitand bits_of int32].
    pose proof (land_int32 _ _ (ToInt32_range na) (ToInt32_range nb)) as Hl.
    now rewrite wrap32_small.
  - now split.
Qed.

Lemma bitnot_of_bits (C : class) (u : Z) :
  engine C -> in_width C u ->
  bitnot (of_bits C u) = of_bits C (Z.lnot u) /\ in_width C (Z.lnot u).
Proof.
  intros [E | E]; red in E; unfold of_bits, in_width; rewrite E; intros Hu.
  - cbn [bitnot int32]. rewrite ToInt32_of_Z, (wrap32_small u Hu).
    assert (Hl : - 2 ^ 31 <= Z.lnot u < 2 ^ 31)
      by (rewrite Z.lnot_eq_pred_opp; lia).
    now rewrite wrap32_small.
  - now split.
Qed.

Lemma add_unfrozen (h : heap) (this : loc) (o : object) (l : list value)
  (rs : list prim) :
  nth_error h this = Some o -> frozen o = false ->
  engine (class_of o) -> same_kind (class_of o) (bitfield o) = true ->
  resolve_all (class_of o) h l rs ->
  add h this l =
  Ok (this,
      set_nth this
        {| class_of := class_of o;
           bitfield := of_bits (class_of o)
                         (Z.lor (bits_of (bitfield o))
                                (union_bits (map bits_of rs)));
           frozen := false |} h) /\
  in_width (class_of o)
    (Z.lor (bits_of (bitfield o)) (union_bits (map bits_of rs))).
Proof.
  intros Ho Hf HE Kb Hall. unfold add, this_object. rewrite Ho. cbn [bind].
  destruct (total_of_union _ h l rs HE Hall) as [-> Hw]. cbn [bind].
  destruct (bitor_same_kind _ (bitfield o) _ Kb
              (of_bits_kind _ (union_bits (map bits_of rs)) HE))
    as [Hor Hw'].
  rewrite (bits_of_of_bits _ _ Hw) in Hor, Hw'.
  rewrite Hor. cbn [bind]. now rewrite Hf.
Qed.

Lemma remove_unfrozen (h : heap) (this : loc) (o : object) (l : list value)
  (rs : list prim) :
  nth_error h this = Some o -> frozen o = false ->
  engine (class_of o) -> same_kind (class_of o) (bitfield o) = true ->
  resolve_all (class_of o) h l rs ->
  remove h this l =
  Ok (this,
      set_nth this
        {| class_of := class_of o;
           bitfield := of_bits (class_of o)
                         (Z.land (bits_of (bitfield o))
                                 (Z.lnot (union_bits (map bits_of rs))));
           frozen := false |} h) /\
  in_width (class_of o)
    (Z.land (bits_of (bitfield o)) (Z.lnot (union_bits (map bits_of rs)))).
Proof.
  intros Ho Hf HE Kb Hall. unfold remove, this_object. rewrite Ho.
  cbn [bind].
  destruct (total_of_union _ h l rs HE Hall) as [-> Hw]. cbn [bind].
  destruct (bitnot_of_bits _ _ HE Hw) as [-> Hn].
  destruct (bitand_same_kind _ (bitfield o) _ Kb
              (of_bits_kind _ (Z.lnot (union_bits (map bits_of rs))) HE))
    as [Hand Hw'].
  rewrite (bits_of_of_bits _ _ Hn) in Hand, Hw'.
  rewrite Hand. cbn [bind]. now rewrite Hf.
Qed.

(** X3.  [add] on an instance that is not frozen returns the receiver
    and changes the store only at the receiver, whose bitfield gets the
    binary digits of all the arguments; nothing is allocated. *)
Theorem add_in_place (h : heap) (this : loc) (o : object) (l : list value)
  (rs : list prim) :
  nth_error h this = Some o -> frozen o = false ->
  engine (class_of o) -> same_kind (class_of o) (bitfield o) = true ->
  resolve_all (class_of o) h l rs ->
  exists h',
    add h this l = Ok (this, h') /\
    List.length h' = List.length h /\
    (forall l', l' <> this -> nth_error h' l' = nth_error h l') /\
    nth_error h' this =
    Some {| class_of := class_of o;
            bitfield := of_bits (class_of o)
                          (Z.lor (bits_of (bitfield o))
                                 (union_bits (map bits_of rs)));
            frozen := false |}.
Proof.
  intros Ho Hf HE Kb Hall.
  destruct (add_unfrozen h this o l rs Ho Hf HE Kb Hall) as [Hadd _].
  eexists. split; [exact Hadd |]. split; [apply length_set_nth |]. split.
  - intros l' Hl'. apply nth_error_set_nth_ne. congruence.
  - now apply (nth_error_set_nth_eq h this _ o).
Qed.

(** X4.  The order and the repetitions of the arguments do not matter:
    two argument lists whose elements resolve to the same set of values
    give the same result of [add], of [remove] and of the resolution of
    the array. *)
Theorem arguments_as_set (h : heap) (this : loc) (C : class)
  (l l' : list value) (rs rs' : list prim) :
  engine C ->
  (forall o, nth_error h this = Some o -> class_of o = C) ->
  resolve_all C h l rs -> resolve_all C h l' rs' ->
  (forall z, In z (map bits_of rs) <-> In z (map bits_of rs')) ->
  add h this l = add h this l' /\
  remove h this l = remove h this l' /\
  resolve C h (VArray l) = resolve C h (VArray l').
Proof.
  intros HE Hc Hall Hall' Hset.
  pose proof (union_bits_same_elements _ _ Hset) as Hu.
  assert (Ht : total_of C h (DefaultBit C) l = total_of C h (DefaultBit C) l').
  { rewrite (proj1 (total_of_union C h l rs HE Hall)).
    rewrite (proj1 (total_of_union C h l' rs' HE Hall')). now rewrite Hu. }
  split; [| split].
  - unfold add, this_object. destruct (nth_error h this) as [o |] eqn:Ho;
      [| reflexivity]. cbn [bind]. rewrite (Hc o eq_refl). now rewrite Ht.
  - unfold remove, this_object. destruct (nth_error h this) as [o |] eqn:Ho;
      [| reflexivity]. cbn [bind]. rewrite (Hc o eq_refl). now rewrite Ht.
  - rewrite (proj1 (array_union_width C h l rs HE Hall)).
    rewrite (proj1 (array_union_width C h l' rs' HE Hall')). now rewrite Hu.
Qed.

(** X5.  [remove] on an instance that is not frozen returns the receiver
    and changes the store only at the receiver, whose bitfield loses the
    binary digits of all the arguments; nothing is allocated. *)
Theorem remove_in_place (h : heap) (this : loc) (o : object) (l : list value)
  (rs : list prim) :
  nth_error h this = Some o -> frozen o = false ->
  engine (class_of o) -> same_kind (class_of o) (bitfield o) = true ->
  resolve_all (class_of o) h l rs ->
  exists h',
    remove h this l = Ok (this, h') /\
    List.length h' = List.length h /\
    (forall l', l' <> this -> nth_error h' l' = nth_error h l') /\
    nth_error h' this =
    Some {| class_of := class_of o;
            bitfield := of_bits (class_of o)
                          (Z.land (bits_of (bitfield o))
                                  (Z.lnot (union_bits (map bits_of rs))));
            frozen := false |}.
Proof.
  intros Ho Hf HE Kb Hall.
  destruct (remove_unfrozen h this o l rs Ho Hf HE Kb Hall) as [Hrem _].
  eexists. split; [exact Hrem |]. split; [apply length_set_nth |]. split.
  - intros l' Hl'. apply nth_error_set_nth_ne. congruence.
  - now apply (nth_error_set_nth_eq h this _ o).
Qed.

(** ** [any] and [equals] *)

Lemma number_eq_of_Z (x y : Z) : number_eq (of_Z x) (of_Z y) = (x =? y).
Proof.
  unfold number_eq, of_Z.
  destruct (Z.eqb_spec x y) as [-> | Hne].
  - apply Qeq_bool_refl.
  - destruct (Qeq_bool (inject_Z x) (inject_Z y)) eqn:Hq; [| reflexivity].
    apply Qeq_bool_iff in Hq. apply (proj1 (inject_Z_injective x y)) in Hq.
    now elim Hne.
Qed.

Lemma strict_eq_of_bits_zero (C : class) (x : Z) :
  engine C -> strict_eq (of_bits C x) (DefaultBit C) = (x =? 0).
Proof.
  intros [E | E]; red in E; unfold of_bits; rewrite E; cbn [strict_eq].
  - apply number_eq_of_Z.
  - reflexivity.
Qed.

Lemma BitField_any_mask (h : heap) (this : loc) (o : object) (bit : value)
  (r : prim) :
  nth_error h this = Some o -> engine (class_of o) ->
  same_kind (class_of o) (bitfield o) = true ->
  resolve (class_of o) h bit = Ok r ->
  same_kind (class_of o) r = true ->
  BitField_any h this bit =
  Ok (negb (Z.land (bits_of (bitfield o)) (bits_of r) =? 0)).
Proof.
  intros Ho HE Kb Hr Kr. unfold BitField_any, this_object.
  rewrite Ho. cbn [bind]. rewrite Hr. cbn [bind].
  rewrite (proj1 (bitand_same_kind _ _ _ Kb Kr)). cbn [bind].
  now rewrite strict_eq_of_bits_zero.
Qed.

Lemma nonzero_has_bit (z : Z) :
  z <> 0 -> exists i, Z.testbit z i = true.
Proof.
  intros Hz. destruct (Z.lt_trichotomy z 0) as [Hneg | [H0 | Hpos]].
  - exists (Z.log2 (Z.abs z) + 1).
    apply (Z.bits_iff_neg z); [lia | exact Hneg].
  - contradiction.
  - exists (Z.log2 z). now apply Z.bit_log2.
Qed.

(** X6.  The generic [any] answers true exactly when the bitfield and the
    resolved argument have a binary digit in common, that is when
    [(bitfield & resolved) !== DefaultBit]. *)
Theorem any_iff_common_bit (h : heap) (this : loc) (o : object) (bit : value)
  (r : prim) :
  nth_error h this = Some o -> engine (class_of o) ->
  same_kind (class_of o) (bitfield o) = true ->
  resolve (class_of o) h bit = Ok r ->
  same_kind (class_of o) r = true ->
  (exists answer, BitField_any h this bit = Ok answer) /\
  (BitField_any h this bit = Ok true <->
   exists i, Z.testbit (bits_of r) i = true /\
             Z.testbit (bits_of (bitfield o)) i = true).
Proof.
  intros Ho HE Kb Hr Kr.
  rewrite (BitField_any_mask h this o bit r Ho HE Kb Hr Kr).
  split; [eauto |]. split.
  - intros H. injection H as H. apply negb_true_iff, Z.eqb_neq in H.
    destruct (nonzero_has_bit _ H) as [i Hi]. exists i.
    rewrite Z.land_spec in Hi. apply andb_true_iff in Hi. tauto.
  - intros (i & Hri & Hbi). f_equal. apply negb_true_iff, Z.eqb_neq.
    intros H0.
    assert (Hz : Z.testbit (Z.land (bits_of (bitfield o)) (bits_of r)) i
                 = false) by (rewrite H0; apply Z.bits_0).
    rewrite Z.land_spec, Hri, Hbi in Hz. discriminate.
Qed.

(** X7.  The empty array: every instance of an engine [has] the empty
    array, and no instance has [any] of it. *)
Theorem empty_array_has_any (h : heap) (this : loc) (o : object) :
  nth_error h this = Some o -> engine (class_of o) ->
  same_kind (class_of o) (bitfield o) = true ->
  BitField_has h this (VArray []) = Ok true /\
  BitField_any h this (VArray []) = Ok false.
Proof.
  intros Ho HE Kb.
  assert (Hr : resolve (class_of o) h (VArray []) = Ok (DefaultBit (class_of o)))
    by (rewrite resolve_array; reflexivity).
  destruct (engine_zero _ HE) as (Kz & Bz & _).
  split.
  - rewrite (BitField_has_mask h this o _ _ Ho Kb Hr (well_formed_zero _ HE)).
    now rewrite Bz, Z.land_0_r.
  - rewrite (BitField_any_mask h this o _ _ Ho HE Kb Hr Kz).
    now rewrite Bz, Z.land_0_r.
Qed.

Lemma strict_eq_well_formed (C : class) (a b : prim) :
  well_formed C a = true -> well_formed C b = true ->
  strict_eq a b = (bits_of a =? bits_of b).
Proof.
  intros Ha Hb.
  destruct (DefaultBit C) as [| d | d | kd] eqn:Ed;
    unfold well_formed in Ha, Hb; rewrite Ed in Ha, Hb;
    destruct a as [| na | za | kna]; try discriminate;
    destruct b as [| nb | zb | knb]; try discriminate.
  - apply andb_true_iff in Ha as [Ha _]. apply andb_true_iff in Hb as [Hb _].
    cbn [strict_eq bits_of int32].
    rewrite <- (number_eq_int32_valued nb _ Hb).
    unfold int32_valued in Ha. destruct na as [| s | qa]; try discriminate.
    destruct nb as [| s | qb]; try discriminate.
    unfold number_eq, of_Z in Ha |- *. apply Qeq_bool_iff in Ha.
    apply Qeqb_comp; [now symmetry | reflexivity].
  - reflexivity.
Qed.

(** X8.  [equals] compares the values: on a well-formed bitfield and a
    well-formed argument it answers whether the two integers are the
    same. *)
Theorem equals_same_bits (h : heap) (this : loc) (o : object) (bit : value)
  (r : prim) :
  nth_error h this = Some o ->
  well_formed (class_of o) (bitfield o) = true ->
  resolve (class_of o) h bit = Ok r ->
  well_formed (class_of o) r = true ->
  equals h this bit = Ok (bits_of (bitfield o) =? bits_of r).
Proof.
  intros Ho Wb Hr Wr. unfold equals, this_object. rewrite Ho. cbn [bind].
  rewrite Hr. cbn [bind].
  now rewrite (strict_eq_well_formed _ _ _ Wb Wr).
Qed.

(** X9.  An argument that does not resolve: [equals] answers false in
    every engine; the generic [has] and [any] answer false in a Number
    engine and throw a TypeError in a BigInt engine. *)
Theorem unresolved_argument (h : heap) (this : loc) (o : object)
  (bad : value) :
  nth_error h this = Some o ->
  same_kind (class_of o) (bitfield o) = true ->
  resolve (class_of o) h bad = Ok Undefined ->
  equals h this bad = Ok false /\
  (number_engine (class_of o) ->
   BitField_has h this bad = Ok false /\
   BitField_any h this bad = Ok false) /\
  (bigint_engine (class_of o) ->
   BitField_has h this bad = Throw TypeError /\
   BitField_any h this bad = Throw TypeError).
Proof.
  intros Ho Kb Hbad.
  unfold equals, BitField_has, BitField_any, this_object.
  rewrite Ho. cbn [bind]. rewrite Hbad. cbn [bind].
  unfold same_kind in Kb. split; [| split].
  - destruct (DefaultBit (class_of o)), (bitfield o); try discriminate;
      reflexivity.
  - intros E. red in E. rewrite E in Kb |- *.
    destruct (bitfield o) as [| n | z | kn]; try discriminate.
    cbn [bitand bind int32 strict_eq]. rewrite Z.land_0_r.
    change (wrap32 0) with 0. now rewrite number_eq_of_Z.
  - intros E. red in E. rewrite E in Kb |- *.
    destruct (bitfield o) as [| n | z | kn]; try discriminate.
    split; reflexivity.
Qed.

(** ** Adding, then removing *)

Lemma land_lor_lnot (b r : Z) :
  Z.land (Z.lor b r) (Z.lnot r) = Z.land b (Z.lnot r).
Proof.
  apply Z.bits_inj'. intros i Hi.
  rewrite !Z.land_spec, Z.lor_spec, Z.lnot_spec by exact Hi.
  now destruct (Z.testbit b i), (Z.testbit r i).
Qed.

Lemma land_lnot_disjoint (b r : Z) : Z.land (Z.land b (Z.lnot r)) r = 0.
Proof.
  apply Z.bits_inj'. intros i Hi.
  rewrite !Z.land_spec, Z.lnot_spec, Z.bits_0 by exact Hi.
  now destruct (Z.testbit b i), (Z.testbit r i).
Qed.

Lemma land_lnot_id (b r : Z) : Z.land b r = 0 -> Z.land b (Z.lnot r) = b.
Proof.
  intros H. apply Z.bits_inj'. intros i Hi.
  rewrite Z.land_spec, Z.lnot_spec by exact Hi.
  assert (Hz : Z.testbit (Z.land b r) i = false) by (rewrite H; apply Z.bits_0).
  rewrite Z.land_spec in Hz.
  now destruct (Z.testbit b i), (Z.testbit r i).
Qed.

Lemma strict_eq_of_bits_self (C : class) (p : prim) :
  well_formed C p = true -> strict_eq (of_bits C (bits_of p)) p = true.
Proof.
  unfold well_formed, of_bits.
  destruct (DefaultBit C) as [| d | d | kd]; try discriminate;
    destruct p as [| n | z | kn]; try discriminate; intros H.
  - apply andb_true_iff in H as [H _]. exact H.
  - apply Z.eqb_refl.
Qed.

Lemma resolve_closed (C : class) (h h' : heap) (v : value) :
  closed 0 v = true -> resolve C h v = resolve C h' v.
Proof.
  apply (resolve_agree C h h' 0). intros l Hl. lia.
Qed.

(** X10.  On an instance that is not frozen, [add(f)] followed by
    [remove(f)] leaves the bitfield without the binary digits of [f]: the
    instance then has [any] of [f] no more, and when no digit of [f] was
    set before, it [equals] its former value again. *)
Theorem add_then_remove (h : heap) (this : loc) (o : object) (f : value)
  (r : prim) :
  nth_error h this = Some o -> frozen o = false ->
  engine (class_of o) ->
  well_formed (class_of o) (bitfield o) = true ->
  closed 0 f = true ->
  resolve (class_of o) h f = Ok r ->
  same_kind (class_of o) r = true ->
  exists h1 h2,
    add h this [f] = Ok (this, h1) /\
    remove h1 this [f] = Ok (this, h2) /\
    option_map (fun x => bits_of (bitfield x)) (nth_error h2 this) =
    Some (Z.land (bits_of (bitfield o)) (Z.lnot (bits_of r))) /\
    BitField_any h2 this f = Ok false /\
    (Z.land (bits_of (bitfield o)) (bits_of r) = 0 ->
     equals h2 this (inject (bitfield o)) = Ok true).
Proof.
  intros Ho Hf HE Wb Hcl Hr Kr.
  pose proof (well_formed_same_kind _ _ Wb) as Kb.
  assert (Hall : resolve_all (class_of o) h [f] [r])
    by (repeat constructor; assumption).
  destruct (add_unfrozen h this o [f] [r] Ho Hf HE Kb Hall) as [Hadd Hw1].
  change (union_bits (map bits_of [r])) with (bits_of r) in Hadd, Hw1.
  set (o1 := {| class_of := class_of o;
                bitfield := of_bits (class_of o)
                              (Z.lor (bits_of (bitfield o)) (bits_of r));
                frozen := false |}) in *.
  set (h1 := set_nth this o1 h) in *.
  assert (H1 : nth_error h1 this = Some o1)
    by (apply (nth_error_set_nth_eq h this o1 o Ho)).
  assert (Hall1 : resolve_all (class_of o1) h1 [f] [r]).
  { repeat constructor; [| exact Kr].
    rewrite <- (resolve_closed _ h h1 f Hcl). exact Hr. }
  destruct (remove_unfrozen h1 this o1 [f] [r] H1 eq_refl HE
              (of_bits_kind _ _ HE) Hall1) as [Hrem Hw2].
  change (union_bits (map bits_of [r])) with (bits_of r) in Hrem, Hw2.
  cbn [class_of bitfield o1] in Hrem, Hw2.
  rewrite (bits_of_of_bits _ _ Hw1), land_lor_lnot in Hrem, Hw2.
  set (o2 := {| class_of := class_of o;
                bitfield := of_bits (class_of o)
                              (Z.land (bits_of (bitfield o))
                                      (Z.lnot (bits_of r)));
                frozen := false |}) in *.
  set (h2 := set_nth this o2 h1) in *.
  assert (H2 : nth_error h2 this = Some o2)
    by (apply (nth_error_set_nth_eq h1 this o2 o1 H1)).
  exists h1, h2. split; [exact Hadd |]. split; [exact Hrem |].
  split; [| split].
  - rewrite H2. cbn [option_map bitfield o2].
    now rewrite (bits_of_of_bits _ _ Hw2).
  - rewrite (BitField_any_mask h2 this o2 f r H2 HE (of_bits_kind _ _ HE)).
    + cbn [bitfield o2].
      now rewrite (bits_of_of_bits _ _ Hw2), land_lnot_disjoint.
    + cbn [class_of o2]. rewrite <- (resolve_closed _ h h2 f Hcl). exact Hr.
    + exact Kr.
  - intros Hdis. unfold equals, this_object. rewrite H2. cbn [bind].
    cbn [class_of bitfield o2].
    rewrite (proj2 (resolve_inject_well_formed _ h2 _ HE Wb)). cbn [bind].
    rewrite (land_lnot_id _ _ Hdis).
    now rewrite (strict_eq_of_bits_self _ _ Wb).
Qed.

(** ** Enumeration and serialization *)

Lemma has_literal (PFB : list (string * Z)) (h : heap) (this : loc)
  (o : object) (bit : value) (hp : option bool) :
  nth_error h this = Some o ->
  permissions (class_of o) = false \/ hp = Some false ->
  has PFB h this bit hp = BitField_has h this bit.
Proof.
  intros Ho Hlit. unfold has, this_object. rewrite Ho. cbn [bind].
  destruct (permissions (class_of o)); [| reflexivity].
  destruct Hlit as [Hp | ->]; [discriminate | reflexivity].
Qed.

Lemma iterate_literal (PFB : list (string * Z)) (h : heap) (this : loc)
  (o : object) (hp : option bool) :
  nth_error h this = Some o ->
  permissions (class_of o) = false \/ hp = Some false ->
  wf_registry (class_of o) ->
  same_kind (class_of o) (bitfield o) = true ->
  iterate PFB h this hp (keys (Flags (class_of o))) =
  Ok (filter (fun n =>
                Z.land (bits_of (bitfield o))
                       (bits_of (get n (Flags (class_of o))))
                =? bits_of (get n (Flags (class_of o))))
             (keys (Flags (class_of o)))).
Proof.
  intros Ho Hlit Hreg Kb.
  rewrite (iterate_filter PFB h this hp
             (fun n => Z.land (bits_of (bitfield o))
                         (bits_of (get n (Flags (class_of o))))
                       =? bits_of (get n (Flags (class_of o))))).
  - f_equal. apply filter_ext_in. intros n Hn.
    now destruct (wf_registry_name _ n Hreg Hn) as [-> _].
  - intros n Hn Hnan.
    destruct (wf_registry_name _ n Hreg Hn) as [_ Hwf].
    rewrite (has_literal PFB h this o _ hp Ho Hlit).
    apply (BitField_has_mask h this o); auto. now apply resolve_name.
Qed.

(** X11.  [toArray] lists, in declaration order, exactly the names of the
    registry whose binary digits are all set in the bitfield; in a class
    with the permission overrides too, whatever argument is passed, since
    the override always enumerates with the administrator test off. *)
Theorem toArray_literal (PFB : list (string * Z)) (h : heap) (this : loc)
  (o : object) (hp : option bool) :
  nth_error h this = Some o ->
  wf_registry (class_of o) ->
  same_kind (class_of o) (bitfield o) = true ->
  toArray PFB h this hp =
  Ok (filter (fun n =>
                Z.land (bits_of (bitfield o))
                       (bits_of (get n (Flags (class_of o))))
                =? bits_of (get n (Flags (class_of o))))
             (keys (Flags (class_of o)))).
Proof.
  intros Ho Hreg Kb. unfold toArray, this_object. rewrite Ho. cbn [bind].
  unfold BitField_toArray, iterator, this_object. rewrite Ho. cbn [bind].
  destruct (permissions (class_of o)) eqn:Hp.
  - apply (iterate_literal PFB h this o (Some false) Ho); auto.
  - apply (iterate_literal PFB h this o hp Ho); auto.
Qed.

Lemma get_NoDup (fl : registry) (n : string) (v : prim) :
  NoDup (keys fl) -> In (n, v) fl -> get n fl = v.
Proof.
  intros Hnd Hin.
  assert (H : own n fl = Some v).
  { induction fl as [| [k w] fl IH]; simpl in *; [contradiction |].
    inversion Hnd as [| ? ? Hk Hnd']; subst.
    destruct Hin as [Heq | Hin].
    - injection Heq as -> ->. now rewrite String.eqb_refl.
    - destruct (String.eqb_spec k n) as [-> | Hne].
      + elim Hk. change n with (fst (n, v)). now apply in_map.
      + now apply IH. }
  unfold get. now rewrite H.
Qed.

Lemma serialize_entries_literal (PFB : list (string * Z)) (h : heap)
  (this : loc) (o : object) (hp : option bool) (fl : registry) :
  nth_error h this = Some o ->
  permissions (class_of o) = false \/ hp = Some false ->
  engine (class_of o) ->
  same_kind (class_of o) (bitfield o) = true ->
  Forall (fun kv => isNaN (fst kv) = true /\
                    well_formed (class_of o) (snd kv) = true) fl ->
  serialize_entries PFB h this hp fl =
  Ok (map (fun kv => (fst kv,
                      Z.land (bits_of (bitfield o)) (bits_of (snd kv))
                      =? bits_of (snd kv))) fl).
Proof.
  intros Ho Hlit HE Kb. induction 1 as [| [n v] fl [Hnan Hwf] _ IH]; simpl.
  - reflexivity.
  - simpl in Hnan, Hwf. rewrite Hnan, IH.
    rewrite (has_literal PFB h this o _ hp Ho Hlit).
    rewrite (BitField_has_mask h this o (inject v) v Ho Kb
               (proj2 (resolve_inject_well_formed _ h v HE Hwf)) Hwf).
    reflexivity.
Qed.

Lemma filter_serialized (b : Z) (all fl : registry) :
  (forall n v, In (n, v) fl -> get n all = v) ->
  map fst (filter snd
             (map (fun kv => (fst kv,
                              Z.land b (bits_of (snd kv)) =? bits_of (snd kv)))
                  fl)) =
  filter (fun n => Z.land b (bits_of (get n all)) =? bits_of (get n all))
         (keys fl).
Proof.
  unfold keys.
  induction fl as [| [n v] fl IH]; intros Hget; [reflexivity |].
  cbn [map filter fst snd].
  rewrite (Hget n v (or_introl eq_refl)).
  destruct (Z.land b (bits_of v) =? bits_of v); cbn [map fst];
    rewrite IH by (intros n' v' Hin; apply Hget; now right); reflexivity.
Qed.

(** X12.  [serialize], with the administrator test off or in a class
    without it, pairs every name of the registry, in declaration order,
    with the answer of [has] for its value; the names paired with true
    are exactly the list [toArray] returns. *)
Theorem serialize_literal (PFB : list (string * Z)) (h : heap) (this : loc)
  (o : object) (hp : option bool) :
  nth_error h this = Some o ->
  permissions (class_of o) = false \/ hp = Some false ->
  engine (class_of o) ->
  wf_registry (class_of o) ->
  NoDup (keys (Flags (class_of o))) ->
  same_kind (class_of o) (bitfield o) = true ->
  exists entries,
    serialize PFB h this hp = Ok entries /\
    entries =
    map (fun kv => (fst kv,
                    Z.land (bits_of (bitfield o)) (bits_of (snd kv))
                    =? bits_of (snd kv))) (Flags (class_of o)) /\
    toArray PFB h this hp = Ok (map fst (filter snd entries)).
Proof.
  intros Ho Hlit HE Hreg Hnd Kb. eexists. split; [| split; [reflexivity |]].
  - unfold serialize, this_object. rewrite Ho. cbn [bind].
    now apply (serialize_entries_literal PFB h this o hp).
  - unfold toArray, this_object. rewrite Ho. cbn [bind].
    unfold BitField_toArray, iterator, this_object. rewrite Ho. cbn [bind].
    rewrite (filter_serialized _ (Flags (class_of o)) (Flags (class_of o)))
      by (intros n v Hin; now apply get_NoDup).
    destruct (permissions (class_of o)) eqn:Hp.
    + apply (iterate_literal PFB h this o (Some false) Ho); auto.
    + apply (iterate_literal PFB h this o hp Ho); auto.
Qed.

(** ** With and without the administrator flag *)

Lemma has_administrator_bit (PFB : list (string * Z)) (h : heap) (this : loc)
  (o : object) (a b : Z) :
  NoDup (map fst PFB) -> In ("Administrator", a) PFB -> 0 <= a ->
  nth_error h this = Some o ->
  class_of o = PermissionsBitField PFB -> bitfield o = Big b ->
  BitField_has h this (Administrator PFB) = Ok (Z.land b a =? a).
Proof.
  intros Hnd Hin Ha Ho Hc Hb.
  unfold BitField_has, this_object, Administrator.
  rewrite Ho, (get_permission_flags PFB _ a Hnd Hin).
  cbn [bind inject]. rewrite Hc, Hb. simpl.
  destruct (Z.leb_spec 0 a) as [_ | Hneg]; [| lia]. reflexivity.
Qed.

Lemma serialize_entries_all_true (PFB : list (string * Z)) (h : heap)
  (this : loc) (l : list (string * Z)) :
  (forall f, has PFB h this f None = Ok true) ->
  serialize_entries PFB h this None (permission_flags l) =
  Ok (map (fun n => (n, true)) (filter isNaN (map fst l))).
Proof.
  intros Hall. induction l as [| [n v] l IH]; simpl; [reflexivity |].
  fold (permission_flags l). rewrite IH.
  destruct (isNaN n); [| reflexivity]. now rewrite Hall.
Qed.

(** X13.  An instance of [PermissionsBitField] that holds the
    administrator flag, alone or with others, answers true to [has] and
    to [any] for every argument, and [serialize] pairs every name of the
    table with true. *)
Theorem administrator_grants_all (PFB : list (string * Z)) (h : heap)
  (this : loc) (o : object) (a b : Z) :
  NoDup (map fst PFB) -> In ("Administrator", a) PFB -> 0 <= a ->
  nth_error h this = Some o ->
  class_of o = PermissionsBitField PFB -> bitfield o = Big b ->
  Z.land b a = a ->
  (forall f, has PFB h this f None = Ok true) /\
  (forall f, any PFB h this f None = Ok true) /\
  serialize PFB h this None =
  Ok (map (fun n => (n, true)) (filter isNaN (map fst PFB))).
Proof.
  intros Hnd Hin Ha Ho Hc Hb Hadm.
  pose proof (has_administrator_bit PFB h this o a b Hnd Hin Ha Ho Hc Hb)
    as Htest.
  rewrite Hadm, Z.eqb_refl in Htest.
  assert (Hhas : forall f, has PFB h this f None = Ok true).
  { intros f. unfold has, this_object. rewrite Ho. cbn [bind]. rewrite Hc.
    unfold PermissionsBitField_has. simpl. now rewrite Htest. }
  split; [exact Hhas |]. split.
  - intros f. unfold any, this_object. rewrite Ho. cbn [bind]. rewrite Hc.
    unfold PermissionsBitField_any. simpl. now rewrite Htest.
  - unfold serialize, this_object. rewrite Ho. cbn [bind]. rewrite Hc.
    simpl Flags. now apply serialize_entries_all_true.
Qed.

(** X14.  For an instance of [PermissionsBitField] that does not hold
    the administrator flag the overrides change nothing: [has], [any]
    and [missing] answer as the generic methods do, whatever the
    [checkAdmin] argument. *)
Theorem without_administrator (PFB : list (string * Z)) (h : heap)
  (this : loc) (o : object) (a b : Z) :
  NoDup (map fst PFB) -> In ("Administrator", a) PFB -> 0 <= a ->
  nth_error h this = Some o ->
  class_of o = PermissionsBitField PFB -> bitfield o = Big b ->
  Z.land b a <> a ->
  (forall f hp, has PFB h this f hp = BitField_has h this f) /\
  (forall f hp, any PFB h this f hp = BitField_any h this f) /\
  (forall bits hp, missing PFB h this bits hp =
                   BitField_missing PFB h this bits None).
Proof.
  intros Hnd Hin Ha Ho Hc Hb Hadm.
  pose proof (has_administrator_bit PFB h this o a b Hnd Hin Ha Ho Hc Hb)
    as Htest.
  rewrite (proj2 (Z.eqb_neq _ _) Hadm) in Htest.
  assert (Hhas : forall f hp, has PFB h this f hp = BitField_has h this f).
  { intros f hp. unfold has, this_object. rewrite Ho. cbn [bind]. rewrite Hc.
    unfold PermissionsBitField_has. simpl permissions. cbv iota.
    destruct (checkAdmin_of hp); [now rewrite Htest | reflexivity]. }
  split; [exact Hhas |]. split.
  - intros f hp. unfold any, this_object. rewrite Ho. cbn [bind]. rewrite Hc.
    unfold PermissionsBitField_any. simpl permissions. cbv iota.
    destruct (checkAdmin_of hp); [now rewrite Htest | reflexivity].
  - intros bits hp. unfold missing, this_object. rewrite Ho. cbn [bind].
    rewrite Hc. unfold PermissionsBitField_missing. simpl permissions.
    cbv iota.
    destruct (checkAdmin_of hp); [| reflexivity].
    now rewrite Hhas, Htest.
Qed.

(** ** The constants *)

Lemma fold_or_permission_flags (l : list (string * Z)) :
  forall z,
    fold_left or_step (map snd (permission_flags l)) (Ok (Big z)) =
    Ok (Big (fold_left Z.lor (map snd l) z)).
Proof.
  induction l as [| [n v] l IH]; intros z; simpl; [reflexivity |].
  apply IH.
Qed.

Lemma All_union (PFB : list (string * Z)) :
  All PFB = Ok (Big (union_bits (map snd PFB))).
Proof. unfold All, union_bits. apply fold_or_permission_flags. Qed.

Lemma union_bits_contains (zs : list Z) (v : Z) :
  In v zs -> Z.land (union_bits zs) v = v.
Proof.
  intros Hin. apply land_eq_iff_bits. intros i Hi.
  unfold union_bits. rewrite fold_lor_testbit, Z.bits_0. simpl.
  apply existsb_exists. now exists v.
Qed.

(** X15.  [All] is the BigInt whose binary digits are those of all the
    values of the table: it contains every flag of the table, and each of
    its digits comes from some flag; for the empty table it is [0n]. *)
Theorem All_is_union (PFB : list (string * Z)) :
  exists u,
    All PFB = Ok (Big u) /\
    (forall n v, In (n, v) PFB -> Z.land u v = v) /\
    (forall i, Z.testbit u i = true ->
               exists n v, In (n, v) PFB /\ Z.testbit v i = true) /\
    (PFB = [] -> u = 0).
Proof.
  exists (union_bits (map snd PFB)). split; [apply All_union |].
  split; [| split].
  - intros n v Hin. apply union_bits_contains.
    change v with (snd (n, v)). now apply in_map.
  - intros i Hi. unfold union_bits in Hi.
    rewrite fold_lor_testbit, Z.bits_0 in Hi. simpl in Hi.
    apply existsb_exists in Hi as (v & Hv & Hb).
    apply in_map_iff in Hv as ([n w] & Hw & Hin). simpl in Hw. subst w.
    now exists n, v.
  - intros ->. reflexivity.
Qed.

(** X16.  When the table holds the three flags, [StageModerator] is the
    BigInt whose digits are theirs, and it is contained in [All]; when
    the table lacks [MoveMembers] while it holds the other two, computing
    the constant throws a TypeError. *)
Theorem StageModerator_is_union (PFB : list (string * Z)) (a b : Z) :
  NoDup (map fst PFB) ->
  In ("ManageChannels", a) PFB -> In ("MuteMembers", b) PFB ->
  (forall c, In ("MoveMembers", c) PFB ->
             StageModerator PFB = Ok (Big (Z.lor (Z.lor a b) c)) /\
             exists u, All PFB = Ok (Big u) /\
                       Z.land u (Z.lor (Z.lor a b) c) = Z.lor (Z.lor a b) c) /\
  (~ In "MoveMembers" (map fst PFB) ->
   StageModerator PFB = Throw TypeError).
Proof.
  intros Hnd Ha Hb. unfold StageModerator.
  rewrite (get_permission_flags PFB _ a Hnd Ha).
  rewrite (get_permission_flags PFB _ b Hnd Hb). cbn [bitor bind].
  split.
  - intros c Hc. rewrite (get_permission_flags PFB _ c Hnd Hc).
    split; [reflexivity |].
    exists (union_bits (map snd PFB)). split; [apply All_union |].
    apply land_eq_iff_bits. intros i Hi.
    rewrite !Z.lor_spec in Hi.
    assert (Hin : forall n v, In (n, v) PFB -> Z.testbit v i = true ->
                  Z.testbit (union_bits (map snd PFB)) i = true).
    { intros n v Hv Ht.
      pose proof (union_bits_contains (map snd PFB) v) as Hl.
      apply (proj1 (land_eq_iff_bits _ _)) with (i := i) in Hl; auto.
      change v with (snd (n, v)). now apply in_map. }
    apply orb_true_iff in Hi as [Hi | Hi];
      [apply orb_true_iff in Hi as [Hi | Hi] |]; eauto.
  - intros Hno.
    assert (Hget : get "MoveMembers" (permission_flags PFB) = Undefined).
    { assert (Hown : own "MoveMembers" (permission_flags PFB) = None).
      { clear -Hno. induction PFB as [| [k w] l IH]; [reflexivity |].
        simpl in Hno. cbn [permission_flags map own fst snd].
        destruct (String.eqb_spec k "MoveMembers") as [-> | Hne].
        - elim Hno. now left.
        - apply IH. tauto. }
      unfold get. now rewrite Hown. }
    now rewrite Hget.
Qed.

(** ** Copies *)

(** X17.  Constructing an instance from an instance copies the bitfield
    into a new object, whatever the two classes are; a later [add] on the
    original changes the original only, the copy keeps its bitfield. *)
Theorem construct_copies (C : class) (h : heap) (l : loc) (o : object)
  (args : list value) (rs : list prim) :
  nth_error h l = Some o -> frozen o = false ->
  engine (class_of o) -> same_kind (class_of o) (bitfield o) = true ->
  resolve_all (class_of o)
    (h ++ [{| class_of := C; bitfield := bitfield o; frozen := false |}])%list
    args rs ->
  construct C h (VInstance l) =
  Ok (List.length h,
      (h ++ [{| class_of := C; bitfield := bitfield o;
                frozen := false |}])%list) /\
  List.length h <> l /\
  exists h2,
    add (h ++ [{| class_of := C; bitfield := bitfield o;
                  frozen := false |}])%list l args = Ok (l, h2) /\
    nth_error h2 (List.length h) =
    Some {| class_of := C; bitfield := bitfield o; frozen := false |}.
Proof.
  intros Ho Hf HE Kb Hall.
  pose proof (nth_error_lt _ _ _ Ho) as Hlt.
  split; [| split; [lia |]].
  - apply construct_new; [discriminate |].
    now rewrite resolve_instance, Ho.
  - set (copy := {| class_of := C; bitfield := bitfield o;
                    frozen := false |}) in *.
    assert (H1 : nth_error (h ++ [copy])%list l = Some o)
      by (rewrite nth_error_old by exact Hlt; exact Ho).
    destruct (add_unfrozen _ l o args rs H1 Hf HE Kb Hall) as [Hadd _].
    eexists. split; [exact Hadd |].
    rewrite nth_error_set_nth_ne by lia. apply nth_error_new.
Qed.

(** X18.  [valueOf] returns the bitfield as it is.  Passing it back to
    the constructor gives an instance with the same bitfield when the
    bitfield is well-formed; a Number bitfield that is not [>= 0] is
    lost, the new instance holds [undefined]. *)
Theorem valueOf_construct (h : heap) (this : loc) (o : object) :
  nth_error h this = Some o -> engine (class_of o) ->
  valueOf h this = Ok (bitfield o) /\
  (well_formed (class_of o) (bitfield o) = true ->
   construct (class_of o) h (inject (bitfield o)) =
   Ok (List.length h,
       (h ++ [{| class_of := class_of o; bitfield := bitfield o;
                 frozen := false |}])%list)) /\
  (number_engine (class_of o) ->
   forall n, bitfield o = Num n -> number_ge n (of_Z 0) = false ->
             construct (class_of o) h (inject (bitfield o)) =
             Ok (List.length h,
                 (h ++ [{| class_of := class_of o; bitfield := Undefined;
                           frozen := false |}])%list)).
Proof.
  intros Ho HE. split; [| split].
  - unfold valueOf, this_object. now rewrite Ho.
  - intros Wb.
    destruct (resolve_inject_well_formed _ h _ HE Wb) as [Hnu Hres].
    now apply construct_new.
  - intros E n Hb Hneg. rewrite Hb. cbn [inject].
    apply construct_new; [discriminate |].
    red in E. simpl. rewrite E. simpl. now rewrite Hneg.
Qed.

Lemma well_formed_land (C : class) (p : prim) (m : Z) :
  well_formed C p = true ->
  well_formed C (of_bits C (Z.land (bits_of p) m)) = true.
Proof.
  intros Hp.
  destruct (DefaultBit C) as [| d | d | kd] eqn:Ed.
  - unfold well_formed in Hp. rewrite Ed in Hp. discriminate.
  - destruct p as [| n | z | kn];
      try (unfold well_formed in Hp; rewrite Ed in Hp; discriminate).
    destruct (well_formed_uint31 C d n Ed Hp) as [_ Hn].
    unfold of_bits. rewrite Ed. cbn [bits_of int32].
    apply (well_formed_of_bits_num C d _ Ed).
    now apply land_uint31_l.
  - unfold well_formed, of_bits in *. rewrite Ed in *.
    destruct p as [| n | z | kn]; try discriminate. cbn [bits_of].
    apply Z.leb_le. apply Z.leb_le in Hp. apply Z.land_nonneg. now left.
  - unfold well_formed in Hp. rewrite Ed in Hp. discriminate.
Qed.

(** X19.  [remove] on a frozen instance with a well-formed bitfield
    leaves the store as it was and allocates a new instance of the same
    class, not frozen, whose bitfield is the receiver's without the
    binary digits of the arguments. *)
Theorem frozen_remove_copies (h : heap) (B : loc) (o : object)
  (l : list value) (rs : list prim) :
  nth_error h B = Some o -> frozen o = true ->
  engine (class_of o) ->
  well_formed (class_of o) (bitfield o) = true ->
  resolve_all (class_of o) h l rs ->
  remove h B l =
  Ok (List.length h,
      (h ++ [{| class_of := class_of o;
                bitfield := of_bits (class_of o)
                              (Z.land (bits_of (bitfield o))
                                      (Z.lnot (union_bits (map bits_of rs))));
                frozen := false |}])%list) /\
  List.length h <> B.
Proof.
  intros Ho Hf HE Wb Hall.
  pose proof (nth_error_lt _ _ _ Ho) as Hlt.
  split; [| lia].
  unfold remove, this_object. rewrite Ho. cbn [bind].
  destruct (total_of_union _ h l rs HE Hall) as [-> Hw]. cbn [bind].
  destruct (bitnot_of_bits _ _ HE Hw) as [-> Hn].
  destruct (bitand_same_kind _ (bitfield o) _
              (well_formed_same_kind _ _ Wb)
              (of_bits_kind _ (Z.lnot (union_bits (map bits_of rs))) HE))
    as [Hand _].
  rewrite (bits_of_of_bits _ _ Hn) in Hand.
  rewrite Hand. cbn [bind]. rewrite Hf.
  destruct (resolve_inject_well_formed _ h _ HE
              (well_formed_land _ _ (Z.lnot (union_bits (map bits_of rs))) Wb))
    as [Hnu Hres].
  now apply construct_new.
Qed.

(** * Further properties, evaluated *)

Lemma Permissions_engine : engine Permissions.
Proof. right; reflexivity. Qed.

Lemma Toggles_engine : engine Toggles.
Proof. left; reflexivity. Qed.

Lemma array_union_witness :
  resolve_all Permissions []
    [VString "ViewChannel"; VBigInt 8; VArray [VString "SendMessages"]]
    [Big 1024; Big 8; Big 2048] /\
  resolve Permissions []
    (VArray [VString "ViewChannel"; VBigInt 8; VArray [VString "SendMessages"]])
  = Ok (Big 3080).
Proof.
  assert (H : resolve_all Permissions []
                [VString "ViewChannel"; VBigInt 8;
                 VArray [VString "SendMessages"]]
                [Big 1024; Big 8; Big 2048]) by resolved.
  split; [exact H |].
  exact (array_union Permissions [] _ _ Permissions_engine H).
Defined.

Lemma array_flatten_witness :
  resolve_all Toggles [] [VString "Read"; VString "Write"]
    [Num (of_Z 1); Num (of_Z 2)] /\
  resolve_all Toggles [] [VNumber (of_Z 4)] [Num (of_Z 4)] /\
  resolve Toggles []
    (VArray [VArray [VString "Read"; VString "Write"]; VNumber (of_Z 4)])
  = resolve Toggles []
      (VArray ([VString "Read"; VString "Write"] ++ [VNumber (of_Z 4)])).
Proof.
  assert (H1 : resolve_all Toggles [] [VString "Read"; VString "Write"]
                 [Num (of_Z 1); Num (of_Z 2)]) by resolved.
  assert (H2 : resolve_all Toggles [] [VNumber (of_Z 4)] [Num (of_Z 4)])
    by resolved.
  split; [exact H1 |]. split; [exact H2 |].
  exact (array_flatten Toggles [] _ _ _ _ Toggles_engine H1 H2).
Defined.

Lemma add_in_place_witness :
  resolve_all Toggles (store_of Toggles (Num (of_Z 1)))
    [VString "Write"; VNumber (of_Z 4)] [Num (of_Z 2); Num (of_Z 4)] /\
  exists h',
    add (store_of Toggles (Num (of_Z 1))) 0%nat
        [VString "Write"; VNumber (of_Z 4)] = Ok (0%nat, h') /\
    nth_error h' 0%nat =
    Some {| class_of := Toggles; bitfield := Num (of_Z 7); frozen := false |}.
Proof.
  assert (H : resolve_all Toggles (store_of Toggles (Num (of_Z 1)))
                [VString "Write"; VNumber (of_Z 4)]
                [Num (of_Z 2); Num (of_Z 4)]) by resolved.
  split; [exact H |].
  destruct (add_in_place (store_of Toggles (Num (of_Z 1))) 0%nat _ _ _
              eq_refl eq_refl Toggles_engine eq_refl H)
    as (h' & Hadd & _ & _ & Hnew).
  exists h'. split; [exact Hadd | exact Hnew].
Defined.

Lemma arguments_as_set_witness :
  resolve_all Permissions (store_of Permissions (Big 8))
    [VString "ViewChannel"; VString "SendMessages"; VString "ViewChannel"]
    [Big 1024; Big 2048; Big 1024] /\
  resolve_all Permissions (store_of Permissions (Big 8))
    [VString "SendMessages"; VString "ViewChannel"] [Big 2048; Big 1024] /\
  add (store_of Permissions (Big 8)) 0%nat
    [VString "ViewChannel"; VString "SendMessages"; VString "ViewChannel"]
  = add (store_of Permissions (Big 8)) 0%nat
      [VString "SendMessages"; VString "ViewChannel"].
Proof.
  assert (H1 : resolve_all Permissions (store_of Permissions (Big 8))
                 [VString "ViewChannel"; VString "SendMessages";
                  VString "ViewChannel"]
                 [Big 1024; Big 2048; Big 1024]) by resolved.
  assert (H2 : resolve_all Permissions (store_of Permissions (Big 8))
                 [VString "SendMessages"; VString "ViewChannel"]
                 [Big 2048; Big 1024]) by resolved.
  split; [exact H1 |]. split; [exact H2 |].
  refine (proj1 (arguments_as_set (store_of Permissions (Big 8)) 0%nat
                   Permissions _ _ _ _ Permissions_engine _ H1 H2 _)).
  - intros o Ho. injection Ho as <-. reflexivity.
  - intros z. simpl. tauto.
Defined.

Lemma remove_in_place_witness :
  resolve_all Toggles (store_of Toggles (Num (of_Z 7))) [VString "Write"]
    [Num (of_Z 2)] /\
  exists h',
    remove (store_of Toggles (Num (of_Z 7))) 0%nat [VString "Write"]
    = Ok (0%nat, h') /\
    nth_error h' 0%nat =
    Some {| class_of := Toggles; bitfield := Num (of_Z 5); frozen := false |}.
Proof.
  assert (H : resolve_all Toggles (store_of Toggles (Num (of_Z 7)))
                [VString "Write"] [Num (of_Z 2)]) by resolved.
  split; [exact H |].
  destruct (remove_in_place (store_of Toggles (Num (of_Z 7))) 0%nat _ _ _
              eq_refl eq_refl Toggles_engine eq_refl H)
    as (h' & Hrem & _ & _ & Hnew).
  exists h'. split; [exact Hrem | exact Hnew].
Defined.

Lemma any_iff_common_bit_witness :
  resolve Permissions (store_of Permissions (Big 1024))
    (VArray [VString "ViewChannel"; VString "SendMessages"]) = Ok (Big 3072) /\
  BitField_any (store_of Permissions (Big 1024)) 0%nat
    (VArray [VString "ViewChannel"; VString "SendMessages"]) = Ok true.
Proof.
  split; [reflexivity |].
  apply (proj2 (any_iff_common_bit (store_of Permissions (Big 1024)) 0%nat _
                  (VArray [VString "ViewChannel"; VString "SendMessages"])
                  (Big 3072) eq_refl Permissions_engine eq_refl eq_refl
                  eq_refl)).
  exists 10. split; reflexivity.
Defined.

Lemma empty_array_has_any_witness :
  BitField_has (store_of Permissions (Big 1024)) 0%nat (VArray []) = Ok true /\
  BitField_any (store_of Permissions (Big 1024)) 0%nat (VArray []) = Ok false.
Proof.
  exact (empty_array_has_any (store_of Permissions (Big 1024)) 0%nat _
           eq_refl Permissions_engine eq_refl).
Defined.

Lemma equals_same_bits_witness :
  well_formed Toggles (Num (of_Z 5)) = true /\
  resolve Toggles (store_of Toggles (Num (of_Z 5)))
    (VArray [VString "Read"; VString "Execute"]) = Ok (Num (of_Z 5)) /\
  equals (store_of Toggles (Num (of_Z 5))) 0%nat
    (VArray [VString "Read"; VString "Execute"]) = Ok true.
Proof.
  split; [reflexivity |]. split; [reflexivity |].
  exact (equals_same_bits (store_of Toggles (Num (of_Z 5))) 0%nat _
           (VArray [VString "Read"; VString "Execute"]) (Num (of_Z 5))
           eq_refl eq_refl eq_refl eq_refl).
Defined.

Lemma unresolved_argument_witness :
  resolve Permissions (store_of Permissions (Big 1024)) (VString "Bogus")
  = Ok Undefined /\
  equals (store_of Permissions (Big 1024)) 0%nat (VString "Bogus") = Ok false /\
  BitField_has (store_of Permissions (Big 1024)) 0%nat (VString "Bogus")
  = Throw TypeError /\
  BitField_has (store_of Toggles (Num (of_Z 1))) 0%nat (VString "Bogus")
  = Ok false.
Proof.
  split; [reflexivity |].
  destruct (unresolved_argument (store_of Permissions (Big 1024)) 0%nat _
              (VString "Bogus") eq_refl eq_refl eq_refl) as (He & _ & Hbig).
  destruct (unresolved_argument (store_of Toggles (Num (of_Z 1))) 0%nat _
              (VString "Bogus") eq_refl eq_refl eq_refl) as (_ & Hnum & _).
  split; [exact He |]. split.
  - exact (proj1 (Hbig eq_refl)).
  - exact (proj1 (Hnum eq_refl)).
Defined.

Lemma add_then_remove_witness :
  closed 0 (VString "SendMessages") = true /\
  resolve Permissions (store_of Permissions (Big 1024))
    (VString "SendMessages") = Ok (Big 2048) /\
  Z.land 1024 2048 = 0 /\
  exists h1 h2,
    add (store_of Permissions (Big 1024)) 0%nat [VString "SendMessages"]
    = Ok (0%nat, h1) /\
    remove h1 0%nat [VString "SendMessages"] = Ok (0%nat, h2) /\
    equals h2 0%nat (VBigInt 1024) = Ok true.
Proof.
  split; [reflexivity |]. split; [reflexivity |]. split; [reflexivity |].
  destruct (add_then_remove (store_of Permissions (Big 1024)) 0%nat _
              (VString "SendMessages") (Big 2048) eq_refl eq_refl
              Permissions_engine eq_refl eq_refl eq_refl eq_refl)
    as (h1 & h2 & Hadd & Hrem & _ & _ & Heq).
  exists h1, h2. split; [exact Hadd |]. split; [exact Hrem |].
  exact (Heq eq_refl).
Defined.

Lemma toArray_literal_witness :
  wf_registry Permissions /\
  toArray scenario (store_of Permissions (Big 3080)) 0%nat None
  = Ok ["ViewChannel"; "SendMessages"; "Administrator"].
Proof.
  split; [exact Permissions_wf_registry |].
  exact (toArray_literal scenario (store_of Permissions (Big 3080)) 0%nat _
           None eq_refl Permissions_wf_registry eq_refl).
Defined.

Lemma Toggles_NoDup : NoDup (keys (Flags Toggles)).
Proof. repeat constructor; simpl; intuition discriminate. Qed.

Lemma serialize_literal_witness :
  NoDup (keys (Flags Toggles)) /\
  exists entries,
    serialize [] (store_of Toggles (Num (of_Z 5))) 0%nat None = Ok entries /\
    entries = [("Read", true); ("Write", false); ("Execute", true)] /\
    toArray [] (store_of Toggles (Num (of_Z 5))) 0%nat None
    = Ok ["Read"; "Execute"].
Proof.
  split; [exact Toggles_NoDup |].
  destruct (serialize_literal [] (store_of Toggles (Num (of_Z 5))) 0%nat _
              None eq_refl (or_introl eq_refl) Toggles_engine
              Toggles_wf_registry Toggles_NoDup eq_refl)
    as (entries & Hs & He & Ht).
  exists entries. split; [exact Hs |]. split; [exact He |].
  rewrite Ht, He. reflexivity.
Defined.

Lemma administrator_grants_all_witness :
  In ("Administrator", 8) scenario /\
  Z.land 1032 8 = 8 /\
  has scenario (store_of Permissions (Big 1032)) 0%nat
    (VString "SendMessages") None = Ok true /\
  any scenario (store_of Permissions (Big 1032)) 0%nat
    (VString "SendMessages") None = Ok true /\
  serialize scenario (store_of Permissions (Big 1032)) 0%nat None
  = Ok [("ViewChannel", true); ("SendMessages", true);
        ("Administrator", true)].
Proof.
  assert (Hin : In ("Administrator", 8) scenario) by (simpl; tauto).
  assert (H0 : 0 <= 8) by lia.
  split; [exact Hin |]. split; [reflexivity |].
  destruct (administrator_grants_all scenario
              (store_of Permissions (Big 1032)) 0%nat _ 8 1032
              scenario_NoDup Hin H0 eq_refl eq_refl eq_refl eq_refl)
    as (Hh & Ha & Hs).
  split; [apply Hh |]. split; [apply Ha | exact Hs].
Defined.

Lemma without_administrator_witness :
  In ("Administrator", 8) scenario /\
  Z.land 1024 8 <> 8 /\
  has scenario (store_of Permissions (Big 1024)) 0%nat
    (VString "SendMessages") None
  = BitField_has (store_of Permissions (Big 1024)) 0%nat
      (VString "SendMessages") /\
  has scenario (store_of Permissions (Big 1024)) 0%nat
    (VString "SendMessages") None = Ok false.
Proof.
  assert (Hin : In ("Administrator", 8) scenario) by (simpl; tauto).
  assert (H0 : 0 <= 8) by lia.
  assert (Hne : Z.land 1024 8 <> 8) by discriminate.
  split; [exact Hin |]. split; [exact Hne |].
  destruct (without_administrator scenario
              (store_of Permissions (Big 1024)) 0%nat _ 8 1024
              scenario_NoDup Hin H0 eq_refl eq_refl eq_refl Hne)
    as (Hh & _ & _).
  split; [apply Hh |]. rewrite Hh. reflexivity.
Defined.

Lemma All_is_union_witness :
  In ("SendMessages", 2048) scenario /\
  exists u, All scenario = Ok (Big u) /\ Z.land u 2048 = 2048.
Proof.
  assert (Hin : In ("SendMessages", 2048) scenario) by (simpl; tauto).
  split; [exact Hin |].
  destruct (All_is_union scenario) as (u & HA & Hc & _).
  exists u. split; [exact HA | exact (Hc _ _ Hin)].
Defined.

Lemma stage_flags_NoDup : NoDup (map fst stage_flags).
Proof. repeat constructor; simpl; intuition discriminate. Qed.

Lemma StageModerator_is_union_witness :
  NoDup (map fst stage_flags) /\
  StageModerator stage_flags = Ok (Big 20971536) /\
  ~ In "MoveMembers"
       (map fst [("ManageChannels", 16); ("MuteMembers", 4194304)]) /\
  StageModerator
    [("ManageChannels", 16); ("MuteMembers", 4194304)] = Throw TypeError.
Proof.
  split; [exact stage_flags_NoDup |]. split.
  - refine (proj1 (proj1 (StageModerator_is_union stage_flags 16 4194304
                            stage_flags_NoDup _ _) 16777216 _));
      simpl; tauto.
  - split; [simpl; intuition discriminate |].
    refine (proj2 (StageModerator_is_union
                     [("ManageChannels", 16); ("MuteMembers", 4194304)]
                     16 4194304 _ _ _) _).
    + repeat constructor; simpl; intuition discriminate.
    + simpl; tauto.
    + simpl; tauto.
    + simpl; intuition discriminate.
Defined.

Lemma construct_copies_witness :
  resolve_all Permissions
    (store_of Permissions (Big 1024) ++
     [{| class_of := Toggles; bitfield := Big 1024; frozen := false |}])%list
    [VString "SendMessages"] [Big 2048] /\
  construct Toggles (store_of Permissions (Big 1024)) (VInstance 0%nat)
  = Ok (1%nat,
        [{| class_of := Permissions; bitfield := Big 1024; frozen := false |};
         {| class_of := Toggles; bitfield := Big 1024; frozen := false |}]) /\
  exists h2,
    add [{| class_of := Permissions; bitfield := Big 1024; frozen := false |};
         {| class_of := Toggles; bitfield := Big 1024; frozen := false |}]
        0%nat [VString "SendMessages"] = Ok (0%nat, h2) /\
    nth_error h2 1%nat =
    Some {| class_of := Toggles; bitfield := Big 1024; frozen := false |}.
Proof.
  assert (H : resolve_all Permissions
                (store_of Permissions (Big 1024) ++
                 [{| class_of := Toggles; bitfield := Big 1024;
                     frozen := false |}])%list
                [VString "SendMessages"] [Big 2048]) by resolved.
  split; [exact H |].
  destruct (construct_copies Toggles (store_of Permissions (Big 1024)) 0%nat
              _ [VString "SendMessages"] [Big 2048] eq_refl eq_refl
              Permissions_engine eq_refl H) as (Hc & _ & h2 & Hadd & Hcopy).
  split; [exact Hc |]. exists h2. split; [exact Hadd | exact Hcopy].
Defined.

Lemma valueOf_construct_witness :
  well_formed Permissions (Big 1024) = true /\
  valueOf (store_of Permissions (Big 1024)) 0%nat = Ok (Big 1024) /\
  construct Permissions (store_of Permissions (Big 1024)) (VBigInt 1024)
  = Ok (1%nat,
        [{| class_of := Permissions; bitfield := Big 1024; frozen := false |};
         {| class_of := Permissions; bitfield := Big 1024; frozen := false |}]) /\
  number_ge (of_Z (-5)) (of_Z 0) = false /\
  construct Toggles (store_of Toggles (Num (of_Z (-5)))) (VNumber (of_Z (-5)))
  = Ok (1%nat,
        [{| class_of := Toggles; bitfield := Num (of_Z (-5)); frozen := false |};
         {| class_of := Toggles; bitfield := Undefined; frozen := false |}]).
Proof.
  destruct (valueOf_construct (store_of Permissions (Big 1024)) 0%nat _
              eq_refl Permissions_engine) as (Hv & Hc & _).
  destruct (valueOf_construct (store_of Toggles (Num (of_Z (-5)))) 0%nat _
              eq_refl Toggles_engine) as (_ & _ & Hn).
  split; [reflexivity |]. split; [exact Hv |]. split; [exact (Hc eq_refl) |].
  split; [reflexivity |].
  exact (Hn eq_refl (of_Z (-5)) eq_refl eq_refl).
Defined.

Lemma frozen_remove_copies_witness :
  resolve_all Permissions
    [{| class_of := Permissions; bitfield := Big 3072; frozen := true |}]
    [VString "ViewChannel"] [Big 1024] /\
  remove [{| class_of := Permissions; bitfield := Big 3072; frozen := true |}]
    0%nat [VString "ViewChannel"]
  = Ok (1%nat,
        [{| class_of := Permissions; bitfield := Big 3072; frozen := true |};
         {| class_of := Permissions; bitfield := Big 2048; frozen := false |}]).
Proof.
  assert (H : resolve_all Permissions
                [{| class_of := Permissions; bitfield := Big 3072;
                    frozen := true |}]
                [VString "ViewChannel"] [Big 1024]) by resolved.
  split; [exact H |].
  exact (proj1 (frozen_remove_copies
                  [{| class_of := Permissions; bitfield := Big 3072;
                      frozen := true |}] 0%nat _ _ _
                  eq_refl eq_refl Permissions_engine eq_refl H)).
Defined.

(** ** Decimal strings and the sign test *)

(** X20.  In a BigInt engine the decimal string of any integer resolves
    to that integer.  For an integer that is not negative this is what
    the integer itself resolves to; a negative integer itself resolves to
    [undefined], so the sign test of the first case is not applied to
    strings. *)
Theorem string_bypasses_sign_test (C : class) (h : heap) (z : Z) :
  bigint_engine C ->
  resolve C h (VString (bigint_toString z)) = Ok (Big z) /\
  (0 <= z -> resolve C h (VBigInt z) = Ok (Big z)) /\
  (z < 0 -> resolve C h (VBigInt z) = Ok Undefined).
Proof.
  intros E. red in E.
  destruct (bigint_toString_spec z) as [Hnan Hparse].
  split; [| split].
  - now rewrite (resolve_numeric C h _ Hnan), E, Hparse.
  - intros Hz. simpl. rewrite E. simpl.
    destruct (Z.leb_spec 0 z); [reflexivity | lia].
  - intros Hz. simpl. rewrite E. simpl.
    destruct (Z.leb_spec 0 z); [lia | reflexivity].
Qed.

Lemma string_bypasses_sign_test_witness :
  bigint_engine Permissions /\
  resolve Permissions [] (VString "-5") = Ok (Big (-5)) /\
  resolve Permissions [] (VBigInt (-5)) = Ok Undefined /\
  resolve Permissions [] (VString "1024") = Ok (Big 1024) /\
  resolve Permissions [] (VBigInt 1024) = Ok (Big 1024).
Proof.
  assert (E : bigint_engine Permissions) by reflexivity.
  split; [exact E |].
  destruct (string_bypasses_sign_test Permissions [] (-5) E) as (Hs & _ & Hn).
  destruct (string_bypasses_sign_test Permissions [] 1024 E) as (Hs' & Hp & _).
  split; [exact Hs |]. split; [apply Hn; lia |].
  split; [exact Hs' |]. apply Hp. lia.
Defined.

(** ** Names that every object inherits *)

Lemma is_inherited_name (s : string) :
  is_inherited s = true -> isNaN s = true /\ only_digits s = false.
Proof.
  unfold is_inherited. intros H. apply existsb_exists in H as (k & Hk & E).
  apply String.eqb_eq in E. subst k.
  repeat (destruct Hk as [<- | Hk]; [split; reflexivity |]).
  destruct Hk.
Qed.

(** X21.  A name that the registry lacks and [Object.prototype] has
    (["constructor"], ["toString"], ...) resolves to the member that the
    table inherits, not to [undefined]; the algorithm as specified does
    not resolve it.  In a Number engine [add] of such a name changes
    nothing more than [add] of no name; in a BigInt engine it throws a
    TypeError. *)
Theorem inherited_name (h : heap) (this : loc) (o : object) (s : string) :
  nth_error h this = Some o ->
  is_inherited s = true ->
  own s (Flags (class_of o)) = None ->
  resolve (class_of o) h (VString s) = Ok (Inherited s) /\
  resolve_as_specified (class_of o) h (VString s) = Ok Undefined /\
  (number_engine (class_of o) -> add h this [VString s] = add h this []) /\
  (bigint_engine (class_of o) -> add h this [VString s] = Throw TypeError).
Proof.
  intros Hn Hi Ho. destruct (is_inherited_name s Hi) as [Hnan Hdig].
  assert (Hr : resolve (class_of o) h (VString s) = Ok (Inherited s)).
  { rewrite (resolve_name _ _ _ Hnan). unfold get. now rewrite Ho, Hi. }
  split; [exact Hr |]. split; [| split].
  - simpl. rewrite same_type_ge_other by exact I. now rewrite Hdig, Ho.
  - intros E. unfold add, this_object. rewrite Hn. cbn [bind].
    red in E. rewrite E.
    change [VString s] with ([] ++ [VString s])%list.
    now rewrite (total_of_skip _ _ _ (Inherited s) [] Hr eq_refl []
                   _ canonical_zero).
  - intros E. unfold add, this_object. rewrite Hn. cbn [bind].
    red in E. rewrite E.
    change [VString s] with ([] ++ [VString s])%list.
    rewrite (proj2 (total_of_big_throws _ _ _ (Inherited s) [] Hr eq_refl
                      [] 0)); [reflexivity |].
    intros v [].
Qed.

Lemma inherited_name_witness :
  nth_error (store_of Permissions (Big 1024)) 0%nat
  = Some {| class_of := Permissions; bitfield := Big 1024; frozen := false |} /\
  is_inherited "constructor" = true /\
  own "constructor" (Flags Permissions) = None /\
  bigint_engine Permissions /\
  resolve Permissions (store_of Permissions (Big 1024)) (VString "constructor")
  = Ok (Inherited "constructor") /\
  add (store_of Permissions (Big 1024)) 0%nat [VString "constructor"]
  = Throw TypeError.
Proof.
  split; [reflexivity |]. split; [reflexivity |]. split; [reflexivity |].
  split; [reflexivity |].
  destruct (inherited_name (store_of Permissions (Big 1024)) 0%nat _
              "constructor" eq_refl eq_refl eq_refl) as (Hr & _ & _ & Hb).
  split; [exact Hr | exact (Hb eq_refl)].
Defined.
